(** * ts_argentum: planar orders, Newick strings and Nexus tree blocks

    A shallow embedding of [src/ts_argentum.py] and the properties of its
    specification.

    Conventions of the embedding.
    - A Python [str] is a [string]; a character is a code point below 256.
    - A Python [list] is a [list]; indexing out of range raises
      [IndexError], slices clamp.
    - A call either returns, raises, or is still looping when the fuel of
      the model is used up: type [result].
    - Text written to [outfilehandle] is the list of the chunks written, one
      per [print] call, oldest first.  What was written before an exception
      stays written.
    - NumPy is not part of the repository.  Its float64 operations used by
      the code ([np.fromstring], [==], [np.min], [str]) form the interface
      [NumPy]; [Float64] below is a concrete instance on a documented
      fragment of float64. *)

From Stdlib Require Import String Ascii ZArith List Lia Bool DecimalString.
From stdpp Require Import base list strings relations.

Local Open Scope string_scope.
Local Open Scope nat_scope.
Local Open Scope list_scope.

(** ** Python outcomes *)

Inductive exn : Type :=
| IndexError
| StopIteration
| AssertionError
| UnboundLocalError
| ValueError (msg : string).

Inductive result (A : Type) : Type :=
| Ok (a : A)
| Raise (e : exn)
| Spin.
Arguments Ok {A} a.
Arguments Raise {A} e.
Arguments Spin {A}.

Definition rbind {A B} (r : result A) (k : A -> result B) : result B :=
  match r with
  | Ok a => k a
  | Raise e => Raise e
  | Spin => Spin
  end.

Notation "x <-! r ; k" := (rbind r (fun x => k))
  (at level 100, r at next level, right associativity).

(** ** Python strings *)

Module Py.

(** [s.split(c)] for a one-character separator. *)
Fixpoint split (c : ascii) (s : string) : list string :=
  match s with
  | EmptyString => [EmptyString]
  | String a s' =>
      if Ascii.eqb a c then EmptyString :: split c s'
      else match split c s' with
           | [] => [String a EmptyString]
           | w :: ws => String a w :: ws
           end
  end.

(** [c.isspace()], code points below 256. *)
Definition isspace (c : ascii) : bool :=
  let n := nat_of_ascii c in
  ((9 <=? n) && (n <=? 13)) || ((28 <=? n) && (n <=? 32))
  || (n =? 133) || (n =? 160).

(** [c.isdigit()], code points below 256: the ten ASCII digits and the
    superscripts two, three and one. *)
Definition isdigit (c : ascii) : bool :=
  let n := nat_of_ascii c in
  ((48 <=? n) && (n <=? 57)) || (n =? 178) || (n =? 179) || (n =? 185).

(** [s.rstrip()] *)
Fixpoint rstrip (s : string) : string :=
  match s with
  | EmptyString => EmptyString
  | String a s' =>
      match rstrip s' with
      | EmptyString => if isspace a then EmptyString else String a EmptyString
      | t => String a t
      end
  end.

(** [s.startswith(p)] *)
Definition startswith (p s : string) : bool := String.prefix p s.

(** [s.endswith(";")] *)
Fixpoint endswith_char (c : ascii) (s : string) : bool :=
  match s with
  | EmptyString => false
  | String a EmptyString => Ascii.eqb a c
  | String _ s' => endswith_char c s'
  end.

(** [s[n:]] for [n >= 0] *)
Fixpoint drop_chars (n : nat) (s : string) : string :=
  match n, s with
  | 0, _ => s
  | S n', String _ s' => drop_chars n' s'
  | S _, EmptyString => EmptyString
  end.

(** [sep.join(l)] *)
Definition join (sep : string) (l : list string) : string := String.concat sep l.

(** [str(i)] for an [int] *)
Definition str_int (z : Z) : string := NilZero.string_of_int (Z.to_int z).

(** [l[a:b]] for [0 <= a], [0 <= b] *)
Definition slice {A} (l : list A) (a b : nat) : list A := take (b - a) (drop a l).

(** [del l[a:b]] for [0 <= a], [0 <= b] *)
Definition del_slice {A} (l : list A) (a b : nat) : list A :=
  take a l ++ drop (a `max` b) l.

(** [range(n)] *)
Definition range (n : Z) : list Z := map Z.of_nat (seq 0 (Z.to_nat n)).

End Py.

(** ** The NumPy interface

    [fromstring text sep] is [np.fromstring(text, sep=sep)] on float64: the
    parsed array, or the exception NumPy raises.  [feq] is [==], [flt] is
    [<], [fstr] is [str] (which is what [format] with an empty format
    specification applies).  *)

Class NumPy (F : Type) : Type := {
  fromstring : string -> string -> result (list F);
  feq : F -> F -> bool;
  flt : F -> F -> bool;
  fstr : F -> string
}.

(** The laws of IEEE comparison that the proofs use.  They hold for every
    float64, NaN included (a comparison with NaN is false). *)
Class NumPyLaws (F : Type) `{NumPy F} : Prop := {
  flt_trans : forall a b c : F, flt a b = true -> flt b c = true -> flt a c = true;
  flt_not_feq : forall a b : F, flt a b = true -> feq b a = false;
  flt_number : forall a b : F, flt a b = true -> feq a a = true
}.

Section Clusterer.

Context {F : Type} `{NumPy F}.

Definition isnan (x : F) : bool := negb (feq x x).

(** [np.minimum]: the left operand when it is smaller or NaN. *)
Definition minimum (a b : F) : F := if flt a b || isnan a then a else b.

(** [np.min] of the non-empty array [h :: t]. *)
Definition np_min (h : F) (t : list F) : F := fold_left minimum t h.

(** [heights == target_height] *)
Definition runs_of_min_height (target : F) (heights : list F) : list bool :=
  map (fun h => feq h target) heights.

(** [np.hstack(([0], runs_of_min_height, [0]))] *)
Definition bounded (runs : list bool) : list Z :=
  0%Z :: map (fun b : bool => if b then 1%Z else 0%Z) runs ++ [0%Z].

(** [np.diff] *)
Fixpoint np_diff (l : list Z) : list Z :=
  match l with
  | a :: (b :: _) as t => (b - a)%Z :: np_diff t
  | _ => []
  end.

(** [np.where(cond)[0]], scanning from index [i] *)
Fixpoint where_from (i : nat) (p : Z -> bool) (l : list Z) : list nat :=
  match l with
  | [] => []
  | x :: l' => if p x then i :: where_from (S i) p l' else where_from (S i) p l'
  end.

Definition np_where (p : Z -> bool) (l : list Z) : list nat := where_from 0 p l.

(** ["({})".format(",".join([o+nwk_height for o in toks]))] *)
Definition cluster_token (nwk_height : string) (toks : list string) : string :=
  "(" +:+ Py.join "," (map (fun o => o +:+ nwk_height) toks) +:+ ")".

(** The [for start, end in zip(...)] loop.  [start] and [end] are kept in
    [nat]: [removed] never exceeds [start] (see [merge_loop_runs]). *)
Fixpoint merge_loop (nwk_height : string) (pairs : list (nat * nat))
    (orders : list string) (removed : nat) : result (list string) :=
  match pairs with
  | [] => Ok orders
  | (start, end_) :: pairs' =>
      let start := start - removed in
      let end_ := end_ - removed in
      let tok := cluster_token nwk_height (Py.slice orders start (end_ + 1)) in
      if decide (end_ < length orders) then
        let orders := <[end_ := tok]> orders in
        let orders := Py.del_slice orders start end_ in
        merge_loop nwk_height pairs' orders (removed + (end_ - start))
      else Raise IndexError
  end.

(** One pass of the [while] loop, on the non-empty array [h :: hs]. *)
Definition cluster_pass (branch_lengths : bool) (orders : list string)
    (h : F) (hs : list F) : result (list string * list F) :=
  let heights := h :: hs in
  let target_height := np_min h hs in
  let runs := runs_of_min_height target_height heights in
  let diffs := np_diff (bounded runs) in
  let nwk_height := if branch_lengths then ":" +:+ fstr target_height else "" in
  orders' <-! merge_loop nwk_height
                (zip (np_where (fun d => 0 <? d)%Z diffs)
                     (np_where (fun d => d <? 0)%Z diffs))
                orders 0;
  Ok (orders', List.filter (fun x => negb (feq x target_height)) heights).

(** [while len(heights): ...] *)
Fixpoint cluster_loop (fuel : nat) (branch_lengths : bool)
    (orders : list string) (heights : list F) : result (list string) :=
  match heights with
  | [] => Ok orders
  | h :: hs =>
      match fuel with
      | 0 => Spin
      | S fuel' =>
          st <-! cluster_pass branch_lengths orders h hs;
          cluster_loop fuel' branch_lengths (fst st) (snd st)
      end
  end.

Definition planar_order_to_newick (fuel : nat) (order_string height_string : string)
    (branch_lengths : bool) : result string :=
  let orders := Py.split "," order_string in
  heights <-! fromstring height_string ",";
  orders <-! cluster_loop fuel branch_lengths orders heights;
  match orders with
  | o :: _ => Ok (o +:+ ";")
  | [] => Raise IndexError
  end.

End Clusterer.

(** ** A concrete float64 fragment

    The float64 values that are NaN or a whole number below 10^16.  Such a
    number is exactly representable below 2^53 and [str] prints it as its
    decimal digits followed by [.0]; from 10^16 on [str] switches to
    exponent notation, so those are left out.  [fromstring] reads an empty
    text as the empty array and otherwise fields of ASCII digits (or [nan])
    between single separators; any other text is outside the fragment and
    is answered with [ValueError]. *)

Module Float64.

Inductive t : Type :=
| nan
| whole (n : N).

Definition eqb (a b : t) : bool :=
  match a, b with
  | whole x, whole y => N.eqb x y
  | _, _ => false
  end.

Definition ltb (a b : t) : bool :=
  match a, b with
  | whole x, whole y => N.ltb x y
  | _, _ => false
  end.

Definition str (a : t) : string :=
  match a with
  | nan => "nan"
  | whole n => NilZero.string_of_uint (N.to_uint n) +:+ ".0"
  end.

Definition digit_value (c : ascii) : option N :=
  let n := N_of_ascii c in
  if ((48 <=? n) && (n <=? 57))%N then Some (n - 48)%N else None.

Fixpoint digits_value (acc : N) (s : string) : option N :=
  match s with
  | EmptyString => Some acc
  | String c s' =>
      match digit_value c with
      | Some d => digits_value (10 * acc + d)%N s'
      | None => None
      end
  end.

Definition parse_field (s : string) : option t :=
  if String.eqb s "nan" then Some nan
  else match s with
       | EmptyString => None
       | _ => match digits_value 0 s with
              | Some n => if (n <? 10 ^ 16)%N then Some (whole n) else None
              | None => None
              end
       end.

Fixpoint parse_fields (fields : list string) : option (list t) :=
  match fields with
  | [] => Some []
  | f :: fields' =>
      match parse_field f, parse_fields fields' with
      | Some x, Some xs => Some (x :: xs)
      | _, _ => None
      end
  end.

Definition parse (text sep : string) : result (list t) :=
  match text, sep with
  | EmptyString, _ => Ok []
  | _, String c EmptyString =>
      match parse_fields (Py.split c text) with
      | Some xs => Ok xs
      | None => Raise (ValueError "string or file could not be read to its end due to unmatched data")
      end
  | _, _ => Raise (ValueError "string or file could not be read to its end due to unmatched data")
  end.

#[global] Instance numpy : NumPy t :=
  {| fromstring := parse; feq := eqb; flt := ltb; fstr := str |}.

End Float64.

(** ** Reading the positions file and writing Nexus *)

(** [str(x)], as [print] applies it to its arguments. *)
Class Str (A : Type) : Type := str : A -> string.

#[global] Instance str_Z : Str Z := Py.str_int.
#[global] Instance str_nat : Str nat := fun n => Py.str_int (Z.of_nat n).
#[global] Instance str_string : Str string := fun s => s.
#[global] Instance str_float64 : Str Float64.t := Float64.str.

Definition newline : string := String (ascii_of_nat 10) EmptyString.

(** The lines a text file yields when iterated: each ends with its line
    feed, except possibly the last. *)
Fixpoint file_lines (content : string) : list string :=
  match content with
  | EmptyString => []
  | String c rest =>
      if Ascii.eqb c (ascii_of_nat 10) then String c EmptyString :: file_lines rest
      else match file_lines rest with
           | [] => [String c EmptyString]
           | l :: ls => String c l :: ls
           end
  end.

(** [print(a, b, ..., sep=sep, end=end)]: the text of one call. *)
Definition print (args : list string) (sep end_ : string) : string :=
  Py.join sep args +:+ end_.

(** [print("TREE", position, "=", tree, sep=" ", end=...)] *)
Definition tree_line (position tree : string) : string :=
  print ["TREE"; position; "="; tree] " "
    (if Py.endswith_char ";" tree then newline else ";" +:+ newline).

Definition nexus_header : string := print ["#NEXUS" +:+ newline +:+ "BEGIN TREES;"] " " newline.
Definition nexus_end : string := print ["END;"] " " newline.

(** The message of the accounting error. *)
Definition accounting_message (site len : nat) : string :=
  "argentum bug hit: " +:+ str site +:+ " trees but " +:+ str len +:+ " sites".

Section Converters.

Context {F : Type} `{NumPy F}.
Context {P L : Type} `{Str P} `{Str L}.

Definition parse_warning (line : string) : string :=
  "Could not convert the first line to a set of floating point values:"
  +:+ newline +:+ " " +:+ line.

(** [variant_positions_from_fn], on the lines of the opened file.  The
    result is the list of warnings logged and the outcome of the call; a
    function that falls off its end returns [None].  The local variable
    [positions] is bound only when the [try] body completes. *)
Definition variant_positions_from_fn (positions_fh : list string)
    : list string * result (option (list F)) :=
  match positions_fh with
  | [] => ([], Ok None)
  | line :: _ =>
      let '(log, positions) :=
        match fromstring (Py.rstrip line) " " with
        | Ok a => ([], Some a)
        | _ => ([parse_warning line], None)
        end in
      match positions with
      | Some a => (log, Ok (Some a))
      | None => (log, Raise UnboundLocalError)
      end
  end.

(** [print("TREE", variant_positions[site], "=", tree, ...)] onto [out]. *)
Definition print_tree_at (variant_positions : list P) (site : nat) (tree : string)
    (out : list string) : list string * result unit :=
  match variant_positions !! site with
  | Some p => (out ++ [tree_line (str p) tree], Ok tt)
  | None => (out, Raise IndexError)
  end.

(** The [for order in argentum_planar_fh] loop.  The state is the buffered
    record, the last height line read, the site counter and the text
    written so far. *)
Fixpoint planar_loop (fuel : nat) (variant_positions : list P)
    (argentum_planar_fh : list string)
    (buffered_planar_order : string * string) (height : string) (site : nat)
    (out : list string) : list string * result (string * string * string * nat) :=
  match argentum_planar_fh with
  | [] => (out, Ok (buffered_planar_order, height, site))
  | order :: fh1 =>
      match order with
      | EmptyString => (out, Raise IndexError)
      | String c _ =>
          if negb (Py.isdigit c) then
            planar_loop fuel variant_positions fh1 buffered_planar_order height site out
          else
            let order := Py.rstrip order in
            match fh1 with
            | [] => (out, Raise StopIteration)
            | next_line :: fh2 =>
                let height := Py.rstrip next_line in
                if decide (buffered_planar_order <> (order, height)) then
                  if decide (fst buffered_planar_order <> "") then
                    match planar_order_to_newick fuel (fst buffered_planar_order)
                            (snd buffered_planar_order) true with
                    | Ok newick_tree =>
                        match print_tree_at variant_positions site newick_tree out with
                        | (out, Ok _) =>
                            planar_loop fuel variant_positions fh2 (order, height) height
                              (S site) out
                        | (out, Raise e) => (out, Raise e)
                        | (out, Spin) => (out, Spin)
                        end
                    | Raise e => (out, Raise e)
                    | Spin => (out, Spin)
                    end
                  else
                    planar_loop fuel variant_positions fh2 (order, height) height (S site) out
                else
                  planar_loop fuel variant_positions fh2 buffered_planar_order height
                    (S site) out
            end
      end
  end.

Definition planar_to_nexus (fuel : nat) (argentum_planar_fh : list string)
    (variant_positions : list P) (seq_length : L) : list string * result unit :=
  let out := [nexus_header] in
  match planar_loop fuel variant_positions argentum_planar_fh ("", "") "" 0 out with
  | (out, Ok (buffered_planar_order, height, site)) =>
      if decide (site <> length variant_positions) then
        (out, Raise (ValueError (accounting_message site (length variant_positions))))
      else if decide (height <> "") then
        match planar_order_to_newick fuel (fst buffered_planar_order)
                (snd buffered_planar_order) true with
        | Ok newick_tree =>
            (out ++ [tree_line (str seq_length) newick_tree] ++ [nexus_end], Ok tt)
        | Raise e => (out, Raise e)
        | Spin => (out, Spin)
        end
      else (out ++ [nexus_end], Ok tt)
  | (out, Raise e) => (out, Raise e)
  | (out, Spin) => (out, Spin)
  end.

Definition nwk_line_start : string := "[0]".

(** The [TRANSLATE] statement for [num_tips] tips. *)
Definition translate_block (num_tips : Z) : string :=
  print ["TRANSLATE" +:+ newline
         +:+ Py.join ("," +:+ newline)
               (map (fun i => str (i + 1)%Z +:+ " " +:+ str i) (Py.range num_tips))
         +:+ ";"] " " newline.

(** The [for line in fh] loop; [fh] is what [FileReadBackwards] yields:
    the lines of the file, last line first, without their line ends. *)
Fixpoint newicks_loop (variant_positions : list P) (fh : list string)
    (buffered_tree : string) (site : nat) (out : list string)
    : list string * result (string * nat) :=
  match fh with
  | [] => (out, Ok (buffered_tree, site))
  | line :: fh' =>
      match line, nwk_line_start with
      | EmptyString, _ | _, EmptyString => (out, Raise IndexError)
      | String c _, String c0 _ =>
          if negb (Ascii.eqb c c0) then
            newicks_loop variant_positions fh' buffered_tree site out
          else if negb (Py.startswith nwk_line_start line) then
            (out, Raise AssertionError)
          else
            let tree := Py.drop_chars (String.length nwk_line_start) line in
            if decide (buffered_tree <> tree) then
              if decide (buffered_tree <> "") then
                match print_tree_at variant_positions site buffered_tree out with
                | (out, Ok _) => newicks_loop variant_positions fh' tree (S site) out
                | (out, Raise e) => (out, Raise e)
                | (out, Spin) => (out, Spin)
                end
              else newicks_loop variant_positions fh' tree (S site) out
            else newicks_loop variant_positions fh' buffered_tree (S site) out
      end
  end.

Definition newicks_to_nexus (fh : list string) (variant_positions : list P)
    (seq_length : L) (num_tips : Z) : list string * result unit :=
  let out := [nexus_header; translate_block num_tips] in
  match newicks_loop variant_positions fh "" 0 out with
  | (out, Ok (buffered_tree, site)) =>
      if decide (site <> length variant_positions) then
        (out, Raise (ValueError (accounting_message site (length variant_positions))))
      else if decide (buffered_tree <> "") then
        (out ++ [tree_line (str seq_length) buffered_tree] ++ [nexus_end], Ok tt)
      else (out ++ [nexus_end], Ok tt)
  | (out, Raise e) => (out, Raise e)
  | (out, Spin) => (out, Spin)
  end.

End Converters.

(** ** Writing the input of argentum

    [np.savetxt(fh, X, fmt="%i", delimiter="", newline="")] on the
    one-dimensional integer array [X] writes each entry as ["%i" % x] with
    nothing between the entries and nothing after them. *)
Definition savetxt_int (genotype : list Z) : string :=
  String.concat "" (map Py.str_int genotype).

(** ["%.18e" % p], the format [np.savetxt] applies by default. *)
Class SaveTxt (P : Type) : Type := fmt_e : P -> string.

(** [samples_to_argentum_in], on the genotypes that
    [sample_data.genotypes()] yields and on [sample_data.sites_position]:
    the text written to [argentum_in_filehandle] and the text written to
    [positions_filehandle]. *)
Definition samples_to_argentum_in {P : Type} `{SaveTxt P}
    (genotypes : list (list Z)) (sites_position : list P) : string * string :=
  (String.concat "" (map (fun genotype => savetxt_int genotype +:+ newline) genotypes),
   String.concat "" (map (fun p => fmt_e p +:+ " ") sites_position)).

(** ["%.18e" % x] for the whole numbers of the [Float64] fragment: the
    first digit, a point, the other digits filled up with zeros to eighteen
    places, and the exponent on two digits. *)
Definition float64_fmt_e (x : Float64.t) : string :=
  match x with
  | Float64.nan => "nan"
  | Float64.whole n =>
      match NilZero.string_of_uint (N.to_uint n) with
      | EmptyString => EmptyString
      | String d rest =>
          String d ("." +:+ rest
                    +:+ String.concat "" (repeat "0" (18 - String.length rest))
                    +:+ "e+"
                    +:+ (if String.length rest <? 10 then "0" else "")
                    +:+ NilZero.string_of_uint (Nat.to_uint (String.length rest)))
      end
  end.

#[global] Instance savetxt_float64 : SaveTxt Float64.t := float64_fmt_e.

(** * Definitions used to state and prove the properties

    None of what follows is code of the repository: these are the notions
    the specification speaks of (runs, exits, nesting depth, the invariant
    of the data model) and the structural readings of the loops that the
    proofs go through. *)

(** ** The clustering pass, read as a scan over the tokens

    [merge_runs] is the pass told by structural recursion: it walks the
    tokens with the flags of [runs_of_min_height] between them, collects the
    tokens of the run that is open in [group], and closes the group at the
    first flag that is off.  [cluster_pass_merge_runs] shows that the
    index arithmetic of the source computes exactly this. *)

Section PassDefinitions.

Context {F : Type} `{NumPy F}.

(** A group that is closed: one token stays as it is, several are bracketed. *)
Definition close_group (nwk_height : string) (group : list string) : string :=
  match group with
  | [o] => o
  | _ => cluster_token nwk_height group
  end.

Fixpoint merge_runs (nwk_height : string) (group orders : list string)
    (runs : list bool) : list string :=
  match orders with
  | [] => []
  | o :: orders' =>
      match runs with
      | [] => close_group nwk_height (group ++ [o]) :: orders'
      | true :: runs' => merge_runs nwk_height (group ++ [o]) orders' runs'
      | false :: runs' =>
          close_group nwk_height (group ++ [o]) :: merge_runs nwk_height [] orders' runs'
      end
  end.

(** The [(start, end)] pairs of the runs of flags that are on, [i] being
    the index of the first flag of [runs] and [open] the start of a run
    that is already open. *)
Fixpoint intervals (i : nat) (open : option nat) (runs : list bool) : list (nat * nat) :=
  match runs with
  | [] => match open with Some s => [(s, i)] | None => [] end
  | true :: runs' => intervals (S i) (Some (default i open)) runs'
  | false :: runs' =>
      match open with
      | Some s => (s, i) :: intervals (S i) None runs'
      | None => intervals (S i) None runs'
      end
  end.

(** A flag as [np.hstack] stores it. *)
Definition flag (b : bool) : Z := if b then 1%Z else 0%Z.

(** [nwk_height] of a pass whose minimum is [target]. *)
Definition nwk_of (branch_lengths : bool) (target : F) : string :=
  if branch_lengths then ":" +:+ fstr target else "".

(** A float that is not NaN. *)
Definition number (x : F) : Prop := feq x x = true.

(** The invariant of the data model. *)
Definition aligned (orders : list string) (heights : list F) : Prop :=
  length orders = S (length heights).

(** One pass of the [while] loop as a step between loop states. *)
Definition pass_step (bl : bool) (s s' : list string * list F) : Prop :=
  exists h hs, snd s = h :: hs /\ cluster_pass bl (fst s) h hs = Ok s'.

(** The number of flags that are on: the merges of a pass. *)
Definition ons (runs : list bool) : nat := length (List.filter (fun b : bool => b) runs).

(** Strictly increasing heights. *)
Fixpoint increasing (l : list F) : Prop :=
  match l with
  | a :: (b :: _) as t => flt a b = true /\ increasing t
  | _ => True
  end.

(** The left-nested bracket structure: [acc] merged with the next token at
    each height in turn. *)
Fixpoint nest (bl : bool) (acc : string) (os : list string) (hs : list F) : string :=
  match hs, os with
  | h :: hs', o :: os' => nest bl (cluster_token (nwk_of bl h) [acc; o]) os' hs'
  | _, _ => acc
  end.

(** A loop state that is aligned, with strictly increasing numbers as
    heights. *)
Definition climbing (s : list string * list F) : Prop :=
  aligned (fst s) (snd s) /\ increasing (snd s) /\ Forall number (snd s).

End PassDefinitions.

(** A text without brackets. *)
Fixpoint plain (s : string) : bool :=
  match s with
  | EmptyString => true
  | String c s' => negb (Ascii.eqb c "(") && negb (Ascii.eqb c ")") && plain s'
  end.

(** The bracket level after [s] and the deepest level met, from [level]
    and [deepest]. *)
Fixpoint depth_scan (level deepest : nat) (s : string) : nat * nat :=
  match s with
  | EmptyString => (level, deepest)
  | String c s' =>
      if Ascii.eqb c "(" then depth_scan (S level) (deepest `max` S level) s'
      else if Ascii.eqb c ")" then depth_scan (pred level) deepest s'
      else depth_scan level deepest s'
  end.

Definition bracket_depth (s : string) : nat := snd (depth_scan 0 0 s).

(** [s] returns to the level it starts from and goes [d] levels deep. *)
Definition nested (d : nat) (s : string) : Prop :=
  forall l m, l <= m -> depth_scan l m s = (l, m `max` (l + d)).

(** ** Run merging

    Both converters run the same scan over their site records: keep one
    buffered record, and when the next record differs write the buffered
    one, tagged with the position of the site that differs.  [scan] is that
    loop over the records alone; [planar_loop_scan] and [newicks_loop_scan]
    show that the two loops of the source are [scan] on the records of
    their input. *)

Section RunMergerDefinitions.

Context {P L : Type} `{Str P} `{Str L}.
Context {R : Type} `{EqDecision R}.

(** [blank] tells the initial buffer from a record; [render] is the tree
    text of a record. *)
Variable blank : R -> bool.
Variable render : R -> result string.
Variable variant_positions : list P.
Variable seq_length : L.

Fixpoint scan (recs : list R) (buffered : R) (site : nat) (out : list string)
    : list string * result (R * nat) :=
  match recs with
  | [] => (out, Ok (buffered, site))
  | r :: recs' =>
      if decide (buffered <> r) then
        if blank buffered then scan recs' r (S site) out
        else
          match render buffered with
          | Ok tree =>
              match print_tree_at variant_positions site tree out with
              | (out, Ok _) => scan recs' r (S site) out
              | (out, Raise e) => (out, Raise e)
              | (out, Spin) => (out, Spin)
              end
          | Raise e => (out, Raise e)
          | Spin => (out, Spin)
          end
      else scan recs' buffered (S site) out
  end.

(** *** Runs, as the specification words them *)

(** The maximal groups of consecutive identical records, each with its
    size; [cur] is the record of the group being counted and [n] its size
    so far. *)
Fixpoint runs_from (cur : R) (n : nat) (recs : list R) : list (R * nat) :=
  match recs with
  | [] => [(cur, n)]
  | r :: recs' =>
      if decide (cur <> r) then (cur, n) :: runs_from r 1 recs'
      else runs_from cur (S n) recs'
  end.

(** The runs of a list of records. *)
Definition group_runs (recs : list R) : list (R * nat) :=
  match recs with
  | [] => []
  | r :: recs' => runs_from r 1 recs'
  end.

(** The number of sites of each run. *)
Definition run_sizes (runs : list (R * nat)) : list nat := map snd runs.

(** The exit of each run: the index of the first site after it. *)
Fixpoint exits (start : nat) (runs : list (R * nat)) : list nat :=
  match runs with
  | [] => []
  | (_, n) :: runs' => (start + n) :: exits (start + n) runs'
  end.

(** The exits of all runs but the last: the sites where the tree changes. *)
Definition run_boundaries (recs : list R) : list nat :=
  removelast (exits 0 (group_runs recs)).

(** The position of an exit: the entry of the position index there, or the
    sequence length when the index has no such entry. *)
Definition exit_position (e : nat) : string :=
  match variant_positions !! e with
  | Some p => str p
  | None => str seq_length
  end.

(** The tree of a record that renders. *)
Definition rendered (r : R) : string :=
  match render r with
  | Ok tree => tree
  | _ => ""
  end.

(** One [TREE] statement per run. *)
Fixpoint run_lines (start : nat) (runs : list (R * nat)) : list string :=
  match runs with
  | [] => []
  | (r, n) :: runs' =>
      tree_line (exit_position (start + n)) (rendered r) :: run_lines (start + n) runs'
  end.

(** Neighbouring runs hold different records: the groups are maximal. *)
Fixpoint neighbours_differ (runs : list (R * nat)) : Prop :=
  match runs with
  | a :: (b :: _) as t => fst a <> fst b /\ neighbours_differ t
  | _ => True
  end.

(** The sites at which the scan writes. *)
Fixpoint boundaries (buffered : R) (site : nat) (recs : list R) : list nat :=
  match recs with
  | [] => []
  | r :: recs' =>
      if decide (buffered <> r) then site :: boundaries r (S site) recs'
      else boundaries buffered (S site) recs'
  end.

(** What the scan writes when every lookup and rendering succeeds. *)
Fixpoint inner_lines (buffered : R) (site : nat) (recs : list R) : list string :=
  match recs with
  | [] => []
  | r :: recs' =>
      if decide (buffered <> r) then
        tree_line (exit_position site) (rendered buffered) :: inner_lines r (S site) recs'
      else inner_lines buffered (S site) recs'
  end.

(** The record has a tree. *)
Definition renders (r : R) : Prop := exists tree, render r = Ok tree.

End RunMergerDefinitions.

(** ** The forward form: [planar_to_nexus] on well-formed input *)

(** What a forward-form file is made of: lines that are not data (their
    first character is not a digit), and site records of an order line
    (first character a digit) and the height line that follows it. *)
Inductive planar_item : Type :=
| Junk (line : string)
| Site (order_line height_line : string).

Definition first_is_digit (line : string) : bool :=
  match line with
  | String c _ => Py.isdigit c
  | EmptyString => false
  end.

Definition planar_item_ok (it : planar_item) : Prop :=
  match it with
  | Junk line => line <> "" /\ first_is_digit line = false
  | Site order_line _ => first_is_digit order_line = true
  end.

Definition planar_item_lines (it : planar_item) : list string :=
  match it with
  | Junk line => [line]
  | Site order_line height_line => [order_line; height_line]
  end.

Definition planar_lines (items : list planar_item) : list string :=
  flat_map planar_item_lines items.

Definition planar_item_records (it : planar_item) : list (string * string) :=
  match it with
  | Junk _ => []
  | Site order_line height_line => [(Py.rstrip order_line, Py.rstrip height_line)]
  end.

(** The site records of a file, in order. *)
Definition planar_records (items : list planar_item) : list (string * string) :=
  flat_map planar_item_records items.

(** The forward form as a run merger: the initial buffer has an empty
    order, a record renders through [planar_order_to_newick] with branch
    lengths. *)
Definition planar_blank (b : string * string) : bool := bool_decide (fst b = "").

Definition planar_render {F : Type} `{NumPy F} (fuel : nat) (b : string * string)
    : result string :=
  planar_order_to_newick fuel (fst b) (snd b) true.

(** ** The reverse form: [newicks_to_nexus] on well-formed input *)

(** What the reverse reader yields: lines that are not data (not empty,
    first character other than the bracket of the sentinel), and tree
    lines, the sentinel followed by a tree that is not empty. *)
Inductive newick_item : Type :=
| Skipped (line : string)
| Tree (tree : string).

Definition first_char (line : string) : option ascii :=
  match line with
  | String c _ => Some c
  | EmptyString => None
  end.

Definition newick_item_ok (it : newick_item) : Prop :=
  match it with
  | Skipped line => exists c, first_char line = Some c /\ c <> "["%char
  | Tree tree => tree <> ""
  end.

Definition newick_item_line (it : newick_item) : string :=
  match it with
  | Skipped line => line
  | Tree tree => nwk_line_start +:+ tree
  end.

Definition newick_lines (items : list newick_item) : list string :=
  map newick_item_line items.

Definition newick_item_records (it : newick_item) : list string :=
  match it with
  | Skipped _ => []
  | Tree tree => [tree]
  end.

Definition newick_records (items : list newick_item) : list string :=
  flat_map newick_item_records items.

(** The reverse form as a run merger: the initial buffer is the empty
    string, a record is its own tree. *)
Definition tree_blank (b : string) : bool := bool_decide (b = "").

Definition tree_render (b : string) : result string := Ok b.

(** ** Accounting *)

(** What a converter owes on the records [recs] of a well-formed input,
    [run] being its written text and outcome and [preamble] what it writes
    before the trees:
    - when there are as many records as positions, it ends without error,
      having written one [TREE] statement per run inside the envelope, and
      the sizes of the runs sum to the number of sites;
    - it raises the accounting error, naming both counts, exactly when the
      counts differ and every site where the tree changes has an entry in
      the position index (the scan then reaches the end of the input);
    - in particular it raises the accounting error whenever there are
      fewer records than positions;
    - when the tree changes at a site beyond the position index, the
      lookup of that position raises [IndexError] first. *)
Definition converter_accounting {P L R : Type} `{Str P} `{Str L} `{EqDecision R}
    (run : list string * result unit) (preamble : list string)
    (render : R -> result string) (recs : list R)
    (variant_positions : list P) (seq_length : L) : Prop :=
  (length recs = length variant_positions ->
   run = (preamble
            ++ run_lines render variant_positions seq_length 0 (group_runs recs)
            ++ [nexus_end], Ok tt)
   /\ list_sum (run_sizes (group_runs recs)) = length variant_positions)
  /\ (snd run = Raise (ValueError (accounting_message (length recs)
                                     (length variant_positions)))
      <-> length recs <> length variant_positions
          /\ Forall (fun e => e < length variant_positions) (run_boundaries recs))
  /\ (length recs < length variant_positions ->
      snd run = Raise (ValueError (accounting_message (length recs)
                                     (length variant_positions))))
  /\ (Exists (fun e => length variant_positions <= e) (run_boundaries recs) ->
      snd run = Raise IndexError).

(** ** Notions for the further properties *)

(** Pairs [(start, end)] in increasing order that do not overlap, from
    index [lo] on. *)
Fixpoint chained (lo : nat) (pairs : list (nat * nat)) : Prop :=
  match pairs with
  | [] => True
  | (s, e) :: pairs' => lo <= s /\ s < e /\ chained e pairs'
  end.

(** The number of tokens the [for] loop removes over [pairs]. *)
Definition span (pairs : list (nat * nat)) : nat :=
  list_sum (map (fun p => snd p - fst p) pairs).

(** [s] without its brackets. *)
Fixpoint unbracket (s : string) : string :=
  match s with
  | EmptyString => EmptyString
  | String c s' =>
      if Ascii.eqb c "(" || Ascii.eqb c ")" then unbracket s' else String c (unbracket s')
  end.

(** The bracket level after [s] from [level]; [None] when a bracket closes
    that was never opened. *)
Fixpoint balance (level : nat) (s : string) : option nat :=
  match s with
  | EmptyString => Some level
  | String c s' =>
      if Ascii.eqb c "(" then balance (S level) s'
      else if Ascii.eqb c ")" then
        match level with
        | 0 => None
        | S level' => balance level' s'
        end
      else balance level s'
  end.

(** Every bracket of [s] is matched. *)
Definition well_bracketed (s : string) : Prop := forall level, balance level s = Some level.

(** A chunk written by a [TREE] print. *)
Definition is_tree_line (chunk : string) : Prop :=
  exists position tree, chunk = tree_line position tree.

(** Neighbouring records all differ. *)
Fixpoint all_change {R : Type} (recs : list R) : Prop :=
  match recs with
  | a :: (b :: _) as t => a <> b /\ all_change t
  | _ => True
  end.

(** The entries of a genotype line: the value of each digit. *)
Fixpoint digits_of_line (line : string) : list Z :=
  match line with
  | EmptyString => []
  | String c line' => (Z.of_nat (nat_of_ascii c) - 48)%Z :: digits_of_line line'
  end.

(** The character Python prints for a one-digit integer. *)
Definition digit_char (z : Z) : ascii := ascii_of_nat (48 + Z.to_nat z).

(** * Lemmas *)

(** The fragment obeys the laws of IEEE comparison. *)
#[global] Instance float64_laws : NumPyLaws Float64.t.
Proof.
  split.
  - intros [|a] [|b] [|c]; simpl; try discriminate.
    rewrite !N.ltb_lt. lia.
  - intros [|a] [|b]; simpl; try discriminate.
    rewrite N.ltb_lt, N.eqb_neq. lia.
  - intros [|a] [|b]; simpl; try discriminate.
    intros _. apply N.eqb_refl.
Qed.

(** ** The clustering pass is the scan over the tokens *)

Section Passes.

Context {F : Type} `{NumPy F}.

Lemma np_diff_cons (a b : Z) (l : list Z) :
  np_diff (a :: b :: l) = (b - a)%Z :: np_diff (b :: l).
Proof. reflexivity. Qed.

Lemma where_from_cons (i : nat) (p : Z -> bool) (x : Z) (l : list Z) :
  where_from i p (x :: l)
  = if p x then i :: where_from (S i) p l else where_from (S i) p l.
Proof. reflexivity. Qed.

Lemma zip_where_intervals (runs : list bool) :
  forall i,
    zip (where_from i (fun d => 0 <? d)%Z (np_diff (0%Z :: map flag runs ++ [0%Z])))
        (where_from i (fun d => d <? 0)%Z (np_diff (0%Z :: map flag runs ++ [0%Z])))
    = intervals i None runs
    /\ forall s,
      zip (s :: where_from i (fun d => 0 <? d)%Z (np_diff (1%Z :: map flag runs ++ [0%Z])))
          (where_from i (fun d => d <? 0)%Z (np_diff (1%Z :: map flag runs ++ [0%Z])))
      = intervals i (Some s) runs.
Proof.
  induction runs as [|b runs IH]; intros i.
  - split; [reflexivity | intros s; reflexivity].
  - destruct (IH (S i)) as [IH0 IH1].
    destruct b; cbn [map flag app]; (split; [|intros s]);
      rewrite np_diff_cons, !where_from_cons; cbv beta.
    + change (0 <? 1 - 0)%Z with true. change (1 - 0 <? 0)%Z with false.
      cbv iota. apply IH1.
    + change (0 <? 1 - 1)%Z with false. change (1 - 1 <? 0)%Z with false.
      cbv iota. apply IH1.
    + change (0 <? 0 - 0)%Z with false. change (0 - 0 <? 0)%Z with false.
      cbv iota. apply IH0.
    + change (0 <? 0 - 1)%Z with false. change (0 - 1 <? 0)%Z with true.
      cbv iota. cbn [zip_with intervals]. f_equal. apply IH0.
Qed.

Lemma close_group_several nwk (g : list string) (o : string) :
  g <> [] -> close_group nwk (g ++ [o]) = cluster_token nwk (g ++ [o]).
Proof. destruct g as [|a [|b g]]; [congruence | reflexivity | reflexivity]. Qed.

(** One iteration of the [for] loop on a list cut at the run. *)
Lemma merge_step (done group rest : list string) (o tok : string) :
  Py.slice (done ++ group ++ o :: rest) (length done) (length done + length group + 1)
    = group ++ [o]
  /\ Py.del_slice (<[length done + length group := tok]> (done ++ group ++ o :: rest))
       (length done) (length done + length group)
    = done ++ tok :: rest.
Proof.
  split.
  - unfold Py.slice. rewrite drop_app_length.
    replace (length done + length group + 1 - length done) with (length (group ++ [o]))
      by (rewrite length_app; simpl; lia).
    replace (group ++ o :: rest) with ((group ++ [o]) ++ rest)
      by (rewrite <- app_assoc; reflexivity).
    apply take_app_length.
  - unfold Py.del_slice.
    replace (length done `max` (length done + length group))
      with (length done + length group) by lia.
    rewrite insert_app_r_alt by lia.
    replace (length done + length group - length done) with (length group + 0) by lia.
    rewrite insert_app_r. simpl.
    rewrite take_app_length. f_equal.
    rewrite drop_app_add'; [|reflexivity].
    replace (length group) with (length group + 0) at 1 by lia.
    rewrite drop_app_add'; [|reflexivity]. reflexivity.
Qed.

(** The [for] loop over the intervals is the scan.  The hypothesis on
    [open] records where the loop stands: [removed + length done] is the
    original index of the first token not yet finished, so the
    subtractions [start - removed] and [end - removed] never truncate. *)
Lemma merge_loop_runs nwk (runs : list bool) :
  forall i open (done group rest : list string) removed,
    length rest = S (length runs) ->
    match open with
    | Some s => s = removed + length done /\ i = s + length group /\ group <> []
    | None => group = [] /\ i = removed + length done
    end ->
    merge_loop nwk (intervals i open runs) (done ++ group ++ rest) removed
    = Ok (done ++ merge_runs nwk group rest runs).
Proof.
  induction runs as [|b runs IH]; intros i open done group rest removed Hlen Hopen.
  - destruct rest as [|o [|? ?]]; simpl in Hlen; try lia.
    destruct open as [s|].
    + destruct Hopen as (-> & -> & Hne). simpl intervals. cbn [merge_loop].
      replace (removed + length done - removed) with (length done) by lia.
      replace (removed + length done + length group - removed)
        with (length done + length group) by lia.
      destruct (merge_step done group [] o
                  (cluster_token nwk (Py.slice (done ++ group ++ [o]) (length done)
                                        (length done + length group + 1)))) as [Hs Hd].
      rewrite decide_True by (rewrite !length_app; simpl; lia).
      rewrite Hd, Hs. simpl. rewrite close_group_several by assumption. reflexivity.
    + destruct Hopen as (-> & ->). reflexivity.
  - destruct rest as [|o rest]; simpl in Hlen; try lia.
    destruct b.
    + (* the run goes on: the token joins the group *)
      simpl intervals. simpl merge_runs.
      replace (done ++ group ++ o :: rest) with (done ++ (group ++ [o]) ++ rest)
        by (rewrite <- (app_assoc group); reflexivity).
      apply IH; [lia|].
      destruct open as [s|]; simpl.
      * destruct Hopen as (-> & -> & Hne). rewrite length_app. simpl.
        repeat split; [lia | destruct group; discriminate].
      * destruct Hopen as (-> & ->). simpl. repeat split; [lia | discriminate].
    + destruct open as [s|].
      * (* the run ends: the group is bracketed *)
        destruct Hopen as (-> & -> & Hne). simpl intervals. cbn [merge_loop].
        replace (removed + length done - removed) with (length done) by lia.
        replace (removed + length done + length group - removed)
          with (length done + length group) by lia.
        destruct (merge_step done group rest o
                    (cluster_token nwk (Py.slice (done ++ group ++ o :: rest) (length done)
                                          (length done + length group + 1)))) as [Hs Hd].
        rewrite decide_True by (rewrite !length_app; simpl; lia).
        rewrite Hd, Hs. simpl merge_runs.
        rewrite close_group_several by assumption.
        replace (done ++ cluster_token nwk (group ++ [o]) :: rest)
          with ((done ++ [cluster_token nwk (group ++ [o])]) ++ [] ++ rest)
          by (rewrite <- app_assoc; reflexivity).
        rewrite (IH (S (removed + length done + length group)) None
                   (done ++ [cluster_token nwk (group ++ [o])]) [] rest
                   (removed + (length done + length group - length done))).
        -- rewrite <- app_assoc. reflexivity.
        -- lia.
        -- split; [reflexivity|]. rewrite length_app. simpl. lia.
      * (* no run is open: the token is kept *)
        destruct Hopen as (-> & ->). simpl intervals. simpl merge_runs.
        replace (done ++ [] ++ o :: rest) with ((done ++ [o]) ++ [] ++ rest)
          by (rewrite <- app_assoc; reflexivity).
        rewrite (IH (S (removed + length done)) None (done ++ [o]) [] rest removed).
        -- rewrite <- app_assoc. reflexivity.
        -- lia.
        -- split; [reflexivity|]. rewrite length_app. simpl. lia.
Qed.

(** Under the invariant of the data model the pass is the scan. *)
Lemma cluster_pass_merge_runs (bl : bool) (orders : list string) (h : F) (hs : list F) :
  length orders = S (length (h :: hs)) ->
  cluster_pass bl orders h hs
  = Ok (merge_runs (nwk_of bl (np_min h hs)) [] orders
          (runs_of_min_height (np_min h hs) (h :: hs)),
        List.filter (fun x => negb (feq x (np_min h hs))) (h :: hs)).
Proof.
  intros Hlen. unfold cluster_pass, np_where, bounded.
  fold flag. fold (nwk_of bl (np_min h hs)).
  destruct (zip_where_intervals (runs_of_min_height (np_min h hs) (h :: hs)) 0) as [-> _].
  pose proof (merge_loop_runs (nwk_of bl (np_min h hs))
                (runs_of_min_height (np_min h hs) (h :: hs)) 0 None [] [] orders 0) as E.
  simpl app in E. rewrite E; [reflexivity | | split; reflexivity].
  unfold runs_of_min_height. rewrite length_map. exact Hlen.
Qed.

End Passes.

(** ** Lengths, progress and termination of the clustering loop *)

Section LoopFacts.

Context {F : Type} `{NumPy F}.

Lemma length_merge_runs nwk (runs : list bool) :
  forall group rest,
    length rest = S (length runs) ->
    length (merge_runs nwk group rest runs) + ons runs = length rest.
Proof.
  unfold ons.
  induction runs as [|b runs IH]; intros group rest Hlen.
  - destruct rest as [|o [|? ?]]; simpl in *; lia.
  - destruct rest as [|o rest]; simpl in Hlen; [lia|].
    destruct b; simpl.
    + specialize (IH (group ++ [o]) rest). lia.
    + specialize (IH [] rest). lia.
Qed.

Lemma ons_runs (target : F) (heights : list F) :
  ons (runs_of_min_height target heights)
  + length (List.filter (fun x => negb (feq x target)) heights)
  = length heights.
Proof.
  unfold ons, runs_of_min_height.
  induction heights as [|x l IH]; simpl; [reflexivity|].
  destruct (feq x target); simpl; lia.
Qed.

Lemma minimum_cases (a b : F) : minimum a b = a \/ minimum a b = b.
Proof. unfold minimum. destruct (flt a b || isnan a); auto. Qed.

Lemma np_min_In (hs : list F) : forall h, In (np_min h hs) (h :: hs).
Proof.
  unfold np_min.
  induction hs as [|x hs IH]; intros h; simpl; [auto|].
  destruct (minimum_cases h x) as [-> | ->].
  - destruct (IH h) as [E | Hin]; [left; exact E | right; right; exact Hin].
  - right. apply IH.
Qed.

Lemma filter_shrinks (target : F) (heights : list F) :
  In target heights -> number target ->
  length (List.filter (fun x => negb (feq x target)) heights) < length heights.
Proof.
  intros Hin Hnum.
  induction heights as [|x l IH]; simpl in *; [contradiction|].
  assert (Hle : length (List.filter (fun x => negb (feq x target)) l) <= length l).
  { clear. induction l as [|y l IH]; simpl; [lia|].
    destruct (negb (feq y target)); simpl; lia. }
  destruct Hin as [-> | Hin].
  - unfold number in Hnum. rewrite Hnum. simpl. lia.
  - specialize (IH Hin). destruct (negb (feq x target)); simpl; lia.
Qed.

Lemma Forall_filter_keep (P : F -> Prop) (f : F -> bool) (l : list F) :
  Forall P l -> Forall P (List.filter f l).
Proof.
  induction 1 as [|x l Hx Hl IH]; simpl; [constructor|].
  destruct (f x); [constructor; assumption | assumption].
Qed.

(** What one pass does to the lengths, under the invariant. *)
Lemma cluster_pass_lengths (bl : bool) (orders : list string) (h : F) (hs : list F) :
  aligned orders (h :: hs) ->
  exists orders' heights',
    cluster_pass bl orders h hs = Ok (orders', heights')
    /\ length orders - length orders' = length (h :: hs) - length heights'
    /\ aligned orders' heights'
    /\ (Forall number (h :: hs) ->
        length heights' < length (h :: hs) /\ Forall number heights').
Proof.
  intros Hal. unfold aligned in Hal.
  rewrite (cluster_pass_merge_runs bl orders h hs Hal).
  eexists _, _. split; [reflexivity|].
  pose proof (length_merge_runs (nwk_of bl (np_min h hs))
                (runs_of_min_height (np_min h hs) (h :: hs)) [] orders) as L.
  unfold runs_of_min_height in L at 1. rewrite length_map in L. specialize (L Hal).
  pose proof (ons_runs (np_min h hs) (h :: hs)) as O.
  unfold aligned. split; [lia|]. split; [lia|]. intros Hnum. split.
  - apply filter_shrinks; [apply np_min_In|].
    rewrite Forall_forall in Hnum. apply Hnum. apply list_elem_of_In, np_min_In.
  - apply Forall_filter_keep. assumption.
Qed.

(** The loop ends, on one token, once the fuel covers the heights. *)
Lemma cluster_loop_terminates (bl : bool) :
  forall fuel orders heights,
    aligned orders heights -> Forall number heights -> length heights <= fuel ->
    exists tok, cluster_loop fuel bl orders heights = Ok [tok].
Proof.
  induction fuel as [|fuel IH]; intros orders heights Hal Hnum Hfuel.
  - destruct heights; simpl in Hfuel; [|lia].
    unfold aligned in Hal. destruct orders as [|o [|? ?]]; simpl in Hal; try lia.
    exists o. reflexivity.
  - destruct heights as [|h hs].
    + unfold aligned in Hal. destruct orders as [|o [|? ?]]; simpl in Hal; try lia.
      exists o. reflexivity.
    + destruct (cluster_pass_lengths bl orders h hs Hal)
        as (orders' & heights' & E & _ & Hal' & Hprog).
      destruct (Hprog Hnum) as [Hlt Hnum'].
      cbn [cluster_loop]. rewrite E. cbn [rbind fst snd].
      apply IH; [assumption | assumption | simpl in *; lia].
Qed.

Lemma aligned_reachable (bl : bool) (s s' : list string * list F) :
  rtc (pass_step bl) s s' -> aligned (fst s) (snd s) -> aligned (fst s') (snd s').
Proof.
  induction 1 as [|s1 s2 s3 (h & hs & Ehs & Epass) _ IH]; [auto|].
  intros Hal. apply IH. rewrite Ehs in Hal.
  destruct (cluster_pass_lengths bl (fst s1) h hs Hal) as (o' & h' & E & _ & Hal' & _).
  rewrite E in Epass. injection Epass as <-. exact Hal'.
Qed.

End LoopFacts.

(** ** Runs of equal minimal heights and strictly increasing heights *)

Section RunShapes.

Context {F : Type} `{NumPy F}.

(** A flag that is off cuts the scan in two independent scans. *)
Lemma merge_runs_cut nwk (b1 : list bool) :
  forall group o1 o2 b2,
    length o1 = S (length b1) ->
    merge_runs nwk group (o1 ++ o2) (b1 ++ false :: b2)
    = merge_runs nwk group o1 b1 ++ merge_runs nwk [] o2 b2.
Proof.
  induction b1 as [|b b1 IH]; intros group o1 o2 b2 Hlen.
  - destruct o1 as [|o [|? ?]]; simpl in Hlen; try lia. reflexivity.
  - destruct o1 as [|o o1]; simpl in Hlen; [lia|].
    destruct b; simpl.
    + apply IH. lia.
    + f_equal. apply IH. lia.
Qed.

(** A run of [k] flags that are on makes one group of [k+1] tokens. *)
Lemma merge_runs_all_on nwk (k : nat) :
  forall group mid,
    length mid = S k ->
    merge_runs nwk group mid (repeat true k) = [close_group nwk (group ++ mid)].
Proof.
  induction k as [|k IH]; intros group mid Hlen.
  - destruct mid as [|o [|? ?]]; simpl in Hlen; try lia. reflexivity.
  - destruct mid as [|o mid]; simpl in Hlen; [lia|]. simpl.
    rewrite IH by lia. rewrite <- app_assoc. reflexivity.
Qed.

Lemma merge_runs_all_off nwk (runs : list bool) :
  forall orders,
    Forall (fun b => b = false) runs -> merge_runs nwk [] orders runs = orders.
Proof.
  induction runs as [|b runs IH]; intros orders Hoff.
  - destruct orders; reflexivity.
  - inversion Hoff as [|? ? -> Hoff']; subst.
    destruct orders as [|o orders]; [reflexivity|]. simpl. f_equal. apply IH, Hoff'.
Qed.

Lemma merge_runs_nil nwk (group : list string) (runs : list bool) :
  merge_runs nwk group [] runs = [].
Proof. reflexivity. Qed.

(** The flags of a list of heights that all equal the target. *)
Lemma runs_all_on (target : F) (run : list F) :
  Forall (fun x => feq x target = true) run ->
  runs_of_min_height target run = repeat true (length run).
Proof.
  induction 1 as [|x l Hx _ IH]; simpl; [reflexivity|]. rewrite Hx, <- IH. reflexivity.
Qed.

Lemma runs_app (target : F) (l1 l2 : list F) :
  runs_of_min_height target (l1 ++ l2)
  = runs_of_min_height target l1 ++ runs_of_min_height target l2.
Proof. apply map_app. Qed.

Lemma length_filter_off (target : F) (l : list F) :
  length (List.filter (fun x => negb (feq x target)) l)
  + ons (runs_of_min_height target l) = length l.
Proof. pose proof (ons_runs target l). lia. Qed.

(** The scan of tokens [opre] that stand before heights [pre] whose last
    entry is not the target: as many tokens come out as heights stay. *)
Lemma merge_runs_before nwk (target : F) (pre : list F) (x : F) (opre : list string) :
  feq x target = false ->
  length opre = length (pre ++ [x]) ->
  length (merge_runs nwk [] opre (runs_of_min_height target pre))
  = length (List.filter (fun y => negb (feq y target)) (pre ++ [x])).
Proof.
  intros Hx Hlen. rewrite length_app in Hlen. simpl in Hlen.
  pose proof (length_merge_runs nwk (runs_of_min_height target pre) [] opre) as L.
  unfold runs_of_min_height in L at 1. rewrite length_map in L.
  assert (L' := L ltac:(lia)).
  pose proof (length_filter_off target pre) as O.
  rewrite List.filter_app, length_app. simpl. rewrite Hx. simpl. lia.
Qed.

Lemma merge_runs_after nwk (target : F) (post : list F) (y : F) (opost : list string) :
  feq y target = false ->
  length opost = length (y :: post) ->
  length (merge_runs nwk [] opost (runs_of_min_height target post))
  = length (List.filter (fun z => negb (feq z target)) (y :: post)).
Proof.
  intros Hy Hlen. simpl in Hlen.
  pose proof (length_merge_runs nwk (runs_of_min_height target post) [] opost) as L.
  unfold runs_of_min_height in L at 1. rewrite length_map in L.
  assert (L' := L ltac:(lia)).
  pose proof (length_filter_off target post) as O.
  simpl. rewrite Hy. simpl. lia.
Qed.

(** The scan around a maximal run of the target: the tokens that span the
    run become one bracketed token; as many tokens stand before it (after
    it) as heights other than the target stand before (after) the run. *)
Lemma merge_runs_maximal_run nwk (target : F) (pre run post : list F)
    (opre mid opost : list string) :
  run <> [] ->
  Forall (fun x => feq x target = true) run ->
  (forall x, last pre = Some x -> feq x target = false) ->
  (forall y, head post = Some y -> feq y target = false) ->
  length opre = length pre -> length mid = S (length run) -> length opost = length post ->
  exists left right,
    merge_runs nwk [] (opre ++ mid ++ opost) (runs_of_min_height target (pre ++ run ++ post))
    = left ++ cluster_token nwk mid :: right
    /\ length left = length (List.filter (fun x => negb (feq x target)) pre)
    /\ length right = length (List.filter (fun x => negb (feq x target)) post).
Proof.
  intros Hne Hrun Hpre Hpost Lpre Lmid Lpost.
  assert (Hclose : close_group nwk mid = cluster_token nwk mid).
  { destruct mid as [|a [|b mid]]; simpl in Lmid; try reflexivity.
    destruct run; [congruence | simpl in Lmid; lia]. }
  rewrite !runs_app, (runs_all_on target run Hrun).
  (* what follows the run *)
  assert (Hmid : exists right,
             merge_runs nwk [] (mid ++ opost)
               (repeat true (length run) ++ runs_of_min_height target post)
             = cluster_token nwk mid :: right
             /\ length right = length (List.filter (fun x => negb (feq x target)) post)).
  { destruct post as [|y post].
    - destruct opost; simpl in Lpost; [|lia]. exists [].
      rewrite !app_nil_r. rewrite merge_runs_all_on by assumption.
      simpl. rewrite Hclose. split; reflexivity.
    - exists (merge_runs nwk [] opost (runs_of_min_height target post)).
      assert (Hy := Hpost y eq_refl).
      change (runs_of_min_height target (y :: post))
        with (feq y target :: runs_of_min_height target post).
      rewrite Hy.
      rewrite merge_runs_cut by (rewrite repeat_length; assumption).
      rewrite merge_runs_all_on by assumption. simpl app. rewrite Hclose.
      split; [reflexivity|]. apply merge_runs_after; assumption. }
  destruct Hmid as (right & Emid & Lright).
  induction pre as [|x pre' _] using rev_ind.
  - destruct opre; simpl in Lpre; [|lia]. exists [], right. simpl app.
    rewrite Emid. split; [reflexivity|]. split; [reflexivity | assumption].
  - exists (merge_runs nwk [] opre (runs_of_min_height target pre')), right.
    assert (Hx : feq x target = false) by (apply Hpre, last_snoc).
    rewrite runs_app.
    change (runs_of_min_height target [x]) with [feq x target].
    rewrite Hx. rewrite <- !app_assoc. simpl app.
    rewrite merge_runs_cut
      by (unfold runs_of_min_height; rewrite length_map;
          rewrite length_app in Lpre; simpl in Lpre; lia).
    rewrite Emid. split; [reflexivity|]. split; [|assumption].
    apply merge_runs_before; assumption.
Qed.

Context `{!NumPyLaws F}.

Lemma increasing_tail (h : F) (hs : list F) : increasing (h :: hs) -> increasing hs.
Proof. destruct hs; simpl; [auto | intros [_ ?]; assumption]. Qed.

Lemma increasing_above (hs : list F) :
  forall h, increasing (h :: hs) -> Forall (fun x => flt h x = true) hs.
Proof.
  induction hs as [|a hs IH]; intros h Hinc; [constructor|].
  destruct Hinc as [Hha Hinc]. constructor; [assumption|].
  specialize (IH a Hinc).
  eapply Forall_impl; [exact IH|]. intros x Hax. simpl in Hax.
  eapply flt_trans; eassumption.
Qed.

Lemma np_min_least (hs : list F) (h : F) :
  Forall (fun x => flt h x = true) hs -> np_min h hs = h.
Proof.
  unfold np_min. induction 1 as [|x l Hx _ IH]; simpl; [reflexivity|].
  unfold minimum at 2. rewrite Hx. simpl. exact IH.
Qed.

(** With strictly increasing heights a pass is one binary merge, of the
    first two tokens, at the first height. *)
Lemma cluster_pass_increasing (bl : bool) (a b : string) (os : list string)
    (h : F) (hs : list F) :
  increasing (h :: hs) -> number h -> length os = length hs ->
  cluster_pass bl (a :: b :: os) h hs
  = Ok (cluster_token (nwk_of bl h) [a; b] :: os, hs).
Proof.
  intros Hinc Hnum Hlen.
  pose proof (increasing_above hs h Hinc) as Habove.
  rewrite cluster_pass_merge_runs by (simpl; lia).
  rewrite (np_min_least hs h Habove).
  assert (Hoff : Forall (fun x => feq x h = false) hs).
  { eapply Forall_impl; [exact Habove|]. intros x Hx. apply flt_not_feq, Hx. }
  change (runs_of_min_height h (h :: hs)) with (feq h h :: runs_of_min_height h hs).
  unfold number in Hnum. cbn [List.filter]. rewrite Hnum. cbn [negb].
  f_equal. f_equal.
  - cbn [merge_runs app].
    destruct hs as [|x hs]; [destruct os; [reflexivity | discriminate]|].
    change (runs_of_min_height h (x :: hs)) with (feq x h :: runs_of_min_height h hs).
    inversion Hoff as [|? ? Hx Hoff']; subst. rewrite Hx. f_equal.
    apply merge_runs_all_off.
    clear -Hoff'. induction Hoff' as [|y l Hy _ IH]; simpl; constructor; assumption.
  - clear -Hoff. induction Hoff as [|y l Hy _ IH]; simpl; [reflexivity|].
    rewrite Hy. simpl. f_equal. exact IH.
Qed.

Lemma cluster_loop_increasing (bl : bool) (hs : list F) :
  forall fuel a os,
    increasing hs -> Forall number hs -> length os = length hs -> length hs <= fuel ->
    cluster_loop fuel bl (a :: os) hs = Ok [nest bl a os hs].
Proof.
  induction hs as [|h hs IH]; intros fuel a os Hinc Hnum Hlen Hfuel.
  - destruct os; [|discriminate]. destruct fuel; reflexivity.
  - destruct os as [|b os]; [discriminate|]. simpl in Hlen, Hfuel.
    destruct fuel as [|fuel]; [lia|].
    inversion Hnum as [|? ? Hh Hnum']; subst.
    cbn [cluster_loop]. rewrite cluster_pass_increasing by (auto; lia).
    cbn [rbind fst snd nest]. apply IH; [eapply increasing_tail; eassumption | auto | lia | lia].
Qed.

End RunShapes.

(** ** Nesting depth of a bracket structure *)

Section Depth.

Context {F : Type} `{NumPy F}.

Lemma depth_scan_app (s1 s2 : string) :
  forall l m,
    depth_scan l m (s1 +:+ s2)
    = depth_scan (fst (depth_scan l m s1)) (snd (depth_scan l m s1)) s2.
Proof.
  induction s1 as [|c s1 IH]; intros l m; simpl; [reflexivity|].
  destruct (Ascii.eqb c "("); [apply IH|].
  destruct (Ascii.eqb c ")"); apply IH.
Qed.

Lemma depth_scan_plain (s : string) :
  plain s = true -> forall l m, depth_scan l m s = (l, m).
Proof.
  induction s as [|c s IH]; intros Hp l m; simpl in *; [reflexivity|].
  apply andb_prop in Hp as [Hp Hs]. apply andb_prop in Hp as [H1 H2].
  apply negb_true_iff in H1, H2. rewrite H1, H2. apply IH, Hs.
Qed.

Lemma nested_plain (s : string) : plain s = true -> nested 0 s.
Proof.
  intros Hp l m Hlm. rewrite depth_scan_plain by assumption. f_equal. lia.
Qed.

Lemma nested_pair (nwk acc o : string) (d : nat) :
  plain nwk = true -> plain o = true -> nested d acc ->
  nested (S d) (cluster_token nwk [acc; o]).
Proof.
  intros Hn Ho Hacc l m Hlm.
  unfold cluster_token, Py.join. cbn [map String.concat].
  change ("(" +:+ ((acc +:+ nwk) +:+ "," +:+ (o +:+ nwk)) +:+ ")")
    with (String "("%char (((acc +:+ nwk) +:+ "," +:+ (o +:+ nwk)) +:+ ")")).
  cbn [depth_scan]. change (Ascii.eqb "(" "(") with true. cbv iota.
  rewrite !depth_scan_app.
  rewrite (Hacc (S l) (m `max` S l)) by lia. cbn [fst snd].
  rewrite (depth_scan_plain nwk Hn). cbn [fst snd].
  rewrite (depth_scan_plain "," eq_refl). cbn [fst snd].
  rewrite (depth_scan_plain o Ho). cbn [fst snd].
  rewrite (depth_scan_plain nwk Hn). cbn [fst snd].
  simpl. f_equal. lia.
Qed.

Lemma nested_nest (bl : bool) (hs : list F) :
  forall acc os d,
    length os = length hs ->
    Forall (fun o => plain o = true) os ->
    Forall (fun h => plain (nwk_of bl h) = true) hs ->
    nested d acc ->
    nested (d + length hs) (nest bl acc os hs).
Proof.
  induction hs as [|h hs IH]; intros acc os d Hlen Hos Hhs Hacc.
  - destruct os; [|discriminate]. simpl. replace (d + 0) with d by lia. exact Hacc.
  - destruct os as [|o os]; [discriminate|]. simpl in Hlen.
    inversion Hos as [|? ? Ho Hos']; subst. inversion Hhs as [|? ? Hh Hhs']; subst.
    cbn [nest length]. replace (d + S (length hs)) with (S d + length hs) by lia.
    apply IH; [lia | assumption | assumption |].
    apply nested_pair; assumption.
Qed.

Lemma bracket_depth_tree (d : nat) (s : string) :
  nested d s -> bracket_depth (s +:+ ";") = d.
Proof.
  intros Hs. unfold bracket_depth. rewrite depth_scan_app.
  rewrite (Hs 0 0) by lia. reflexivity.
Qed.

End Depth.


Lemma last_shift {A} (l : list A) :
  forall r b : A, List.last (r :: l) b = List.last l r.
Proof.
  induction l as [|x l IH]; intros r b; [reflexivity|].
  change (List.last (r :: x :: l) b) with (List.last (x :: l) b).
  rewrite !IH. reflexivity.
Qed.

Lemma last_in {A} (l : list A) : forall r : A, In (List.last l r) (r :: l).
Proof.
  induction l as [|x l IH]; intros r; [left; reflexivity|].
  rewrite (last_shift l x r). right. apply IH.
Qed.

(** ** The scan writes one statement per run *)

Section RunMerger.

Context {P L : Type} `{Str P} `{Str L}.
Context {R : Type} `{EqDecision R}.

(** [blank] tells the initial buffer from a record; [render] is the tree
    text of a record. *)
Variable blank : R -> bool.
Variable render : R -> result string.
Variable variant_positions : list P.
Variable seq_length : L.

(** The runs are the records, cut where neighbours differ. *)
Lemma runs_from_expand (recs : list R) :
  forall cur n,
    flat_map (fun rn => repeat (fst rn) (snd rn)) (runs_from cur n recs)
    = repeat cur n ++ recs.
Proof.
  induction recs as [|r recs IH]; intros cur n; simpl.
  - rewrite !app_nil_r. reflexivity.
  - destruct (decide (cur <> r)) as [Hne | Heq]; simpl.
    + rewrite IH. reflexivity.
    + apply dec_stable in Heq. subst r. rewrite IH.
      change (cur :: recs) with ([cur] ++ recs). rewrite app_assoc. f_equal.
      rewrite <- repeat_cons. reflexivity.
Qed.

Lemma group_runs_expand (recs : list R) :
  flat_map (fun rn => repeat (fst rn) (snd rn)) (group_runs recs) = recs.
Proof. destruct recs as [|r recs]; [reflexivity|]. apply runs_from_expand. Qed.

Lemma runs_from_sizes (recs : list R) :
  forall cur n, list_sum (run_sizes (runs_from cur n recs)) = n + length recs.
Proof.
  induction recs as [|r recs IH]; intros cur n; simpl; [lia|].
  destruct (decide (cur <> r)); simpl; rewrite IH; lia.
Qed.

Lemma group_runs_sizes (recs : list R) :
  list_sum (run_sizes (group_runs recs)) = length recs.
Proof. destruct recs as [|r recs]; [reflexivity|]. apply runs_from_sizes. Qed.

Lemma runs_from_head (recs : list R) (cur : R) (n : nat) :
  exists m rest, runs_from cur n recs = (cur, m) :: rest /\ n <= m.
Proof.
  revert n. induction recs as [|r recs IH]; intros n; simpl.
  - eauto.
  - destruct (decide (cur <> r)); [eauto|].
    destruct (IH (S n)) as (m & rest & E & Hm). exists m, rest. split; [exact E | lia].
Qed.

Lemma runs_from_maximal (recs : list R) :
  forall cur n, neighbours_differ (runs_from cur n recs).
Proof.
  induction recs as [|r recs IH]; intros cur n; simpl; [exact I|].
  destruct (decide (cur <> r)) as [Hne|]; [|apply IH].
  destruct (runs_from_head recs r 1) as (m & rest & E & _).
  specialize (IH r 1). rewrite E in *. simpl. split; assumption.
Qed.

Lemma group_runs_maximal (recs : list R) : neighbours_differ (group_runs recs).
Proof. destruct recs; [exact I | apply runs_from_maximal]. Qed.

Lemma scan_completes (recs : list R) :
  forall buffered site out,
    blank buffered = false -> Forall (fun r => blank r = false) recs ->
    renders render buffered -> Forall (renders render) recs ->
    Forall (fun e => e < length variant_positions) (boundaries buffered site recs) ->
    scan blank render variant_positions recs buffered site out
    = (out ++ inner_lines render variant_positions seq_length buffered site recs,
       Ok (List.last recs buffered, site + length recs)).
Proof.
  induction recs as [|r recs IH]; intros b s out Hb Hrecs Rb Rrecs Hin.
  - simpl. rewrite app_nil_r. do 3 f_equal. lia.
  - inversion Hrecs as [|? ? Hr Hrecs']; subst.
    inversion Rrecs as [|? ? Rr Rrecs']; subst.
    cbn [scan boundaries inner_lines] in *.
    rewrite (last_shift recs r b).
    replace (s + length (r :: recs)) with (S s + length recs) by (simpl; lia).
    destruct (decide (b <> r)) as [Hne | Heq].
    + inversion Hin as [|? ? Hs Hin']; subst.
      rewrite Hb. destruct Rb as [tree Et].
      unfold rendered, exit_position, print_tree_at. rewrite Et.
      apply lookup_lt_is_Some_2 in Hs as [p Ep]. rewrite Ep.
      rewrite IH by assumption. rewrite <- app_assoc. reflexivity.
    + apply dec_stable in Heq. subst r.
      rewrite IH by assumption. reflexivity.
Qed.

Lemma scan_index_error (recs : list R) :
  forall buffered site out,
    blank buffered = false -> Forall (fun r => blank r = false) recs ->
    renders render buffered -> Forall (renders render) recs ->
    Exists (fun e => length variant_positions <= e) (boundaries buffered site recs) ->
    snd (scan blank render variant_positions recs buffered site out) = Raise IndexError.
Proof.
  induction recs as [|r recs IH]; intros b s out Hb Hrecs Rb Rrecs Hex.
  - inversion Hex.
  - inversion Hrecs as [|? ? Hr Hrecs']; subst.
    inversion Rrecs as [|? ? Rr Rrecs']; subst.
    cbn [scan boundaries] in *.
    destruct (decide (b <> r)) as [Hne | Heq].
    + rewrite Hb. destruct Rb as [tree Et]. rewrite Et. unfold print_tree_at.
      destruct (variant_positions !! s) as [p|] eqn:Ep; [|reflexivity].
      apply IH; try assumption.
      inversion Hex as [? ? Hs | ? ? Hex']; subst; [|assumption].
      apply lookup_lt_Some in Ep. lia.
    + apply IH; assumption.
Qed.

Lemma exits_nonempty (start : nat) (cur : R) (n : nat) (recs : list R) :
  exits start (runs_from cur n recs) <> [].
Proof.
  destruct (runs_from_head recs cur n) as (m & rest & -> & _). discriminate.
Qed.

Lemma removelast_shift {A} (a : A) (l : list A) :
  l <> [] -> removelast (a :: l) = a :: removelast l.
Proof. destruct l; [congruence | reflexivity]. Qed.

Lemma boundaries_exits (recs : list R) :
  forall buffered n site,
    n <= site ->
    boundaries buffered site recs
    = removelast (exits (site - n) (runs_from buffered n recs)).
Proof.
  induction recs as [|r recs IH]; intros b n s Hn; simpl; [reflexivity|].
  destruct (decide (b <> r)).
  - cbn [exits]. rewrite removelast_shift by apply exits_nonempty.
    replace (s - n + n) with s by lia. f_equal.
    rewrite (IH r 1 (S s)) by lia. do 2 f_equal. lia.
  - rewrite (IH b (S n) (S s)) by lia. reflexivity.
Qed.

(** The statements of a complete scan plus the final one are the
    statements of the runs. *)
Lemma inner_lines_runs (recs : list R) :
  forall buffered n site,
    n <= site -> site + length recs = length variant_positions ->
    inner_lines render variant_positions seq_length buffered site recs
      ++ [tree_line (str seq_length) (rendered render (List.last recs buffered))]
    = run_lines render variant_positions seq_length (site - n)
        (runs_from buffered n recs).
Proof.
  induction recs as [|r recs IH]; intros b n s Hn Hlen; simpl in *.
  - replace (s - n + n) with s by lia. unfold exit_position.
    rewrite lookup_ge_None_2 by lia. reflexivity.
  - change (match recs with [] => r | _ :: _ => List.last recs b end)
      with (List.last (r :: recs) b).
    rewrite (last_shift recs r b).
    destruct (decide (b <> r)) as [Hne | Heq].
    + cbn [run_lines]. replace (s - n + n) with s by lia. simpl. f_equal.
      rewrite (IH r 1 (S s)) by lia. f_equal. lia.
    + apply dec_stable in Heq. subst r.
      rewrite (IH b (S n) (S s)) by lia. reflexivity.
Qed.

End RunMerger.

(** ** The forward form on well-formed input *)

Lemma digit_not_space (c : ascii) : Py.isdigit c = true -> Py.isspace c = false.
Proof.
  destruct c as [[] [] [] [] [] [] [] []]; intros Hd; try reflexivity; discriminate Hd.
Qed.

Lemma rstrip_keeps_digit (line : string) :
  first_is_digit line = true -> Py.rstrip line <> "".
Proof.
  destruct line as [|c s]; [discriminate|]. simpl. intros Hd.
  rewrite (digit_not_space c Hd). destruct (Py.rstrip s); discriminate.
Qed.

Section Forward.

Context {F : Type} `{NumPy F}.
Context {P L : Type} `{Str P} `{Str L}.

Lemma planar_records_not_blank (items : list planar_item) :
  Forall planar_item_ok items ->
  Forall (fun r => planar_blank r = false) (planar_records items).
Proof.
  induction 1 as [|it items Hit _ IH]; [constructor|].
  destruct it as [line | o h]; simpl; [exact IH|].
  constructor; [|exact IH].
  unfold planar_blank. apply bool_decide_eq_false. simpl.
  apply rstrip_keeps_digit, Hit.
Qed.

(** The loop of [planar_to_nexus] is the scan over the site records; the
    variable [height] ends as the height of the last record read. *)
Lemma planar_loop_scan (fuel : nat) (variant_positions : list P)
    (items : list planar_item) :
  Forall planar_item_ok items ->
  forall b h site out,
    planar_loop fuel variant_positions (planar_lines items) b h site out
    = match scan planar_blank (planar_render fuel) variant_positions
              (planar_records items) b site out with
      | (out', Ok (b', site')) =>
          (out', Ok (b', List.last (map snd (planar_records items)) h, site'))
      | (out', Raise e) => (out', Raise e)
      | (out', Spin) => (out', Spin)
      end.
Proof.
  induction 1 as [|it items Hit _ IH]; intros b h site out; [reflexivity|].
  destruct it as [line | o hl].
  - destruct Hit as [Hne Hd]. destruct line as [|c s]; [congruence|].
    simpl in Hd. cbn [planar_lines flat_map planar_item_lines app planar_loop].
    rewrite Hd. cbn [negb]. apply IH.
  - simpl in Hit. destruct o as [|c s]; [discriminate|]. simpl in Hit.
    cbn [planar_lines flat_map planar_item_lines app planar_loop].
    rewrite Hit. cbn [negb].
    change (planar_records (Site (String c s) hl :: items))
      with ((Py.rstrip (String c s), Py.rstrip hl) :: planar_records items).
    cbn [scan map snd]. rewrite last_shift.
    fold (planar_lines items).
    destruct (decide (b <> (Py.rstrip (String c s), Py.rstrip hl))) as [Hne | Heq].
    + unfold planar_blank at 1.
      destruct (decide (fst b <> "")) as [Hb | Hb].
      * rewrite bool_decide_eq_false_2 by assumption.
        unfold planar_render at 1.
        destruct (planar_order_to_newick fuel (fst b) (snd b) true) as [tree|e|];
          try reflexivity.
        destruct (print_tree_at variant_positions site tree out) as [out1 [[]|e|]];
          try reflexivity.
        apply IH.
      * apply dec_stable in Hb. rewrite bool_decide_eq_true_2 by assumption. apply IH.
    + apply IH.
Qed.

Lemma boundaries_bound {R : Type} `{EqDecision R} (recs : list R) :
  forall (b : R) site,
    Forall (fun e => e < site + length recs) (boundaries b site recs).
Proof.
  induction recs as [|r recs IH]; intros b site; simpl; [constructor|].
  destruct (decide (b <> r)).
  - constructor; [lia|]. eapply Forall_impl; [apply (IH r (S site))|].
    intros e He. simpl in He. lia.
  - eapply Forall_impl; [apply (IH b (S site))|]. intros e He. simpl in He. lia.
Qed.

Lemma last_Some_cons {A} (l : list A) (r : A) : last (r :: l) = Some (List.last l r).
Proof.
  revert r. induction l as [|x l IH]; intros r; [reflexivity|].
  change (last (r :: x :: l)) with (last (x :: l)). rewrite IH, (last_shift l x r).
  reflexivity.
Qed.

Lemma last_map_snd {A B} (l : list (A * B)) (r : A * B) (d : B) :
  List.last (map snd (r :: l)) d = snd (List.last l r).
Proof.
  revert r. induction l as [|x l IH]; intros r; [reflexivity|].
  change (List.last (map snd (r :: x :: l)) d) with (List.last (map snd (x :: l)) d).
  rewrite IH, (last_shift l x r). reflexivity.
Qed.

(** [planar_to_nexus] on a well-formed file whose records all render and
    whose last record has a height line that is not blank. *)
Lemma planar_to_nexus_by_runs (fuel : nat) (items : list planar_item)
    (variant_positions : list P) (seq_length : L) :
  Forall planar_item_ok items ->
  Forall (renders (planar_render fuel)) (planar_records items) ->
  (forall r, last (planar_records items) = Some r -> snd r <> "") ->
  (length (planar_records items) = length variant_positions ->
   planar_to_nexus fuel (planar_lines items) variant_positions seq_length
   = ([nexus_header]
        ++ run_lines (planar_render fuel) variant_positions seq_length 0
             (group_runs (planar_records items))
        ++ [nexus_end], Ok tt))
  /\ (length (planar_records items) <> length variant_positions ->
      Forall (fun e => e < length variant_positions)
        (run_boundaries (planar_records items)) ->
      snd (planar_to_nexus fuel (planar_lines items) variant_positions seq_length)
      = Raise (ValueError (accounting_message (length (planar_records items))
                             (length variant_positions))))
  /\ (Exists (fun e => length variant_positions <= e)
        (run_boundaries (planar_records items)) ->
      snd (planar_to_nexus fuel (planar_lines items) variant_positions seq_length)
      = Raise IndexError).
Proof.
  intros Hok Hren Hlast.
  pose proof (planar_records_not_blank items Hok) as Hnb.
  unfold planar_to_nexus. rewrite (planar_loop_scan fuel variant_positions items Hok).
  unfold run_boundaries.
  destruct (planar_records items) as [|r recs] eqn:Erecs.
  - (* no record at all *)
    cbn [scan group_runs exits removelast map List.last length run_lines].
    split; [|split].
    + intros Hlen. rewrite decide_False by (intros Hc; apply Hc; exact Hlen).
      rewrite decide_False by (intros Hc; apply Hc; reflexivity). reflexivity.
    + intros Hlen _. rewrite decide_True by exact Hlen. reflexivity.
    + intros Hex. inversion Hex.
  - inversion Hnb as [|? ? Hr Hnb']; subst.
    inversion Hren as [|? ? Rr Hren']; subst.
    cbn [scan group_runs].
    assert (Hfirst : ("", "") <> r).
    { intros <-. vm_compute in Hr. discriminate Hr. }
    rewrite decide_True by exact Hfirst.
    replace (planar_blank ("", "")) with true by reflexivity.
    rewrite <- (boundaries_exits recs r 1 1) by lia.
    change (1 - 1) with 0.
    split; [|split].
    + intros Hlen.
      assert (Hin : Forall (fun e => e < length variant_positions) (boundaries r 1 recs)).
      { eapply Forall_impl; [apply (boundaries_bound recs r 1)|].
        intros e He. simpl in He, Hlen. lia. }
      rewrite (scan_completes planar_blank (planar_render fuel) variant_positions
                 seq_length recs) by assumption.
      rewrite decide_False by (intros Hc; apply Hc; simpl in Hlen; lia).
      rewrite last_map_snd.
      rewrite decide_True by (apply Hlast, last_Some_cons).
      assert (Rlast : renders (planar_render fuel) (List.last recs r)).
      { rewrite Forall_forall in Hren.
        apply Hren, list_elem_of_In, last_in. }
      pose proof (inner_lines_runs (planar_render fuel) variant_positions seq_length
                    recs r 1 1 ltac:(lia) ltac:(simpl in Hlen; lia)) as Eruns.
      change (1 - 1) with 0 in Eruns. rewrite <- Eruns.
      destruct Rlast as [tree Et]. unfold rendered.
      fold (planar_render fuel (List.last recs r)). rewrite Et.
      rewrite <- !app_assoc. reflexivity.
    + intros Hlen Hin.
      rewrite (scan_completes planar_blank (planar_render fuel) variant_positions
                 seq_length recs) by assumption.
      rewrite decide_True by (simpl in Hlen; lia).
      simpl. do 3 f_equal.
    + intros Hex.
      pose proof (scan_index_error planar_blank (planar_render fuel) variant_positions
                    recs r 1 [nexus_header] Hr Hnb' Rr Hren' Hex) as E.
      destruct (scan planar_blank (planar_render fuel) variant_positions recs r 1
                  [nexus_header]) as [out1 [[b1 s1]|e|]]; simpl in E; try discriminate.
      injection E as ->. reflexivity.
Qed.

End Forward.

(** ** The reverse form on well-formed input *)

Section Reverse.

Context {P L : Type} `{Str P} `{Str L}.

Lemma newick_records_not_blank (items : list newick_item) :
  Forall newick_item_ok items ->
  Forall (fun r => tree_blank r = false) (newick_records items).
Proof.
  induction 1 as [|it items Hit _ IH]; [constructor|].
  destruct it as [line | tree]; simpl; [exact IH|].
  constructor; [|exact IH]. apply bool_decide_eq_false. exact Hit.
Qed.

Lemma newick_records_render (items : list newick_item) :
  Forall (renders tree_render) (newick_records items).
Proof. apply Forall_forall. intros r _. exists r. reflexivity. Qed.

Lemma prefix_sentinel (tree : string) :
  Py.startswith nwk_line_start (nwk_line_start +:+ tree) = true.
Proof.
  unfold Py.startswith, nwk_line_start. simpl.
  destruct tree; reflexivity.
Qed.

Lemma drop_sentinel (tree : string) :
  Py.drop_chars (String.length nwk_line_start) (nwk_line_start +:+ tree) = tree.
Proof. reflexivity. Qed.

(** The loop of [newicks_to_nexus] is the scan over the trees. *)
Lemma newicks_loop_scan (variant_positions : list P) (items : list newick_item) :
  Forall newick_item_ok items ->
  forall b site out,
    newicks_loop variant_positions (newick_lines items) b site out
    = scan tree_blank tree_render variant_positions (newick_records items) b site out.
Proof.
  induction 1 as [|it items Hit _ IH]; intros b site out; [reflexivity|].
  destruct it as [line | tree].
  - destruct Hit as (c & Hc & Hne). destruct line as [|c' s]; [discriminate|].
    injection Hc as ->.
    cbn [newick_lines map newick_item_line newicks_loop nwk_line_start].
    rewrite (proj2 (Ascii.eqb_neq c "[") Hne). cbn [negb]. apply IH.
  - change (newick_lines (Tree tree :: items))
      with ((nwk_line_start +:+ tree) :: newick_lines items).
    change (newick_records (Tree tree :: items)) with (tree :: newick_records items).
    cbn [newicks_loop scan].
    change (nwk_line_start +:+ tree) with (String "[" (String "0" (String "]" tree))).
    cbn [nwk_line_start]. change (Ascii.eqb "[" "[") with true. cbn [negb].
    change (String "[" (String "0" (String "]" tree))) with (nwk_line_start +:+ tree).
    rewrite prefix_sentinel. cbn [negb]. rewrite !drop_sentinel.
    destruct (decide (b <> tree)) as [Hne | Heq]; [|apply IH].
    unfold tree_blank at 1. change (tree_render b) with (@Ok string b). cbv iota.
    destruct (decide (b <> "")) as [Hb | Hb].
    + rewrite bool_decide_eq_false_2 by assumption.
      destruct (print_tree_at variant_positions site b out) as [out1 [[]|e|]];
        try reflexivity.
      apply IH.
    + apply dec_stable in Hb. rewrite bool_decide_eq_true_2 by assumption. apply IH.
Qed.

(** [newicks_to_nexus] on well-formed lines. *)
Lemma newicks_to_nexus_by_runs (items : list newick_item)
    (variant_positions : list P) (seq_length : L) (num_tips : Z) :
  Forall newick_item_ok items ->
  (length (newick_records items) = length variant_positions ->
   newicks_to_nexus (newick_lines items) variant_positions seq_length num_tips
   = ([nexus_header; translate_block num_tips]
        ++ run_lines tree_render variant_positions seq_length 0
             (group_runs (newick_records items))
        ++ [nexus_end], Ok tt))
  /\ (length (newick_records items) <> length variant_positions ->
      Forall (fun e => e < length variant_positions)
        (run_boundaries (newick_records items)) ->
      snd (newicks_to_nexus (newick_lines items) variant_positions seq_length num_tips)
      = Raise (ValueError (accounting_message (length (newick_records items))
                             (length variant_positions))))
  /\ (Exists (fun e => length variant_positions <= e)
        (run_boundaries (newick_records items)) ->
      snd (newicks_to_nexus (newick_lines items) variant_positions seq_length num_tips)
      = Raise IndexError).
Proof.
  intros Hok.
  pose proof (newick_records_not_blank items Hok) as Hnb.
  pose proof (newick_records_render items) as Hren.
  unfold newicks_to_nexus. rewrite (newicks_loop_scan variant_positions items Hok).
  unfold run_boundaries.
  destruct (newick_records items) as [|r recs] eqn:Erecs.
  - cbn [scan group_runs exits removelast length run_lines].
    split; [|split].
    + intros Hlen. rewrite decide_False by (intros Hc; apply Hc; exact Hlen).
      rewrite decide_False by (intros Hc; apply Hc; reflexivity). reflexivity.
    + intros Hlen _. rewrite decide_True by exact Hlen. reflexivity.
    + intros Hex. inversion Hex.
  - inversion Hnb as [|? ? Hr Hnb']; subst.
    inversion Hren as [|? ? Rr Hren']; subst.
    cbn [scan group_runs].
    assert (Hfirst : "" <> r).
    { intros <-. vm_compute in Hr. discriminate Hr. }
    rewrite decide_True by exact Hfirst.
    replace (tree_blank "") with true by reflexivity.
    rewrite <- (boundaries_exits recs r 1 1) by lia.
    change (1 - 1) with 0.
    split; [|split].
    + intros Hlen.
      assert (Hin : Forall (fun e => e < length variant_positions) (boundaries r 1 recs)).
      { eapply Forall_impl; [apply (boundaries_bound recs r 1)|].
        intros e He. simpl in He, Hlen. lia. }
      rewrite (scan_completes tree_blank tree_render variant_positions seq_length recs)
        by assumption.
      rewrite decide_False by (intros Hc; apply Hc; simpl in Hlen; lia).
      assert (Hlast : List.last recs r <> "").
      { assert (Hall : Forall (fun t => tree_blank t = false) (r :: recs))
          by (constructor; assumption).
        rewrite Forall_forall in Hall.
        specialize (Hall (List.last recs r) ltac:(apply list_elem_of_In, last_in)).
        apply bool_decide_eq_false in Hall. exact Hall. }
      rewrite decide_True by exact Hlast.
      pose proof (inner_lines_runs tree_render variant_positions seq_length
                    recs r 1 1 ltac:(lia) ltac:(simpl in Hlen; lia)) as Eruns.
      change (1 - 1) with 0 in Eruns. rewrite <- Eruns.
      rewrite <- !app_assoc. reflexivity.
    + intros Hlen Hin.
      rewrite (scan_completes tree_blank tree_render variant_positions seq_length recs)
        by assumption.
      rewrite decide_True by (simpl in Hlen; lia).
      simpl. do 3 f_equal.
    + intros Hex.
      pose proof (scan_index_error tree_blank tree_render variant_positions
                    recs r 1 [nexus_header; translate_block num_tips]
                    Hr Hnb' Rr Hren' Hex) as E.
      destruct (scan tree_blank tree_render variant_positions recs r 1
                  [nexus_header; translate_block num_tips]) as [out1 [[b1 s1]|e|]];
        simpl in E; try discriminate.
      injection E as ->. reflexivity.
Qed.

(** The loop only appends to what is already written. *)
Lemma newicks_loop_appends (variant_positions : list P) (fh : list string) :
  forall b site out,
  exists more, fst (newicks_loop variant_positions fh b site out) = out ++ more.
Proof.
  induction fh as [|line fh IH]; intros b site out.
  - exists []. simpl. rewrite app_nil_r. reflexivity.
  - cbn [newicks_loop nwk_line_start].
    destruct line as [|c s]; [exists []; cbn [fst]; rewrite app_nil_r; reflexivity|].
    destruct (negb (Ascii.eqb c "[")); [apply IH|].
    destruct (negb (Py.startswith nwk_line_start (String c s)));
      [exists []; cbn [fst]; rewrite app_nil_r; reflexivity|].
    destruct (decide (b <> Py.drop_chars (String.length nwk_line_start) (String c s)));
      [|apply IH].
    destruct (decide (b <> "")); [|apply IH].
    unfold print_tree_at.
    destruct (variant_positions !! site) as [p|];
      [|exists []; cbn [fst]; rewrite app_nil_r; reflexivity].
    destruct (IH (Py.drop_chars (String.length nwk_line_start) (String c s)) (S site)
                (out ++ [tree_line (str p) b])) as [more E].
    exists ([tree_line (str p) b] ++ more). rewrite E, <- app_assoc. reflexivity.
Qed.

(** The loop over two stretches of lines. *)
Lemma newicks_loop_app (variant_positions : list P) (fh1 fh2 : list string) :
  forall b site out,
    newicks_loop variant_positions (fh1 ++ fh2) b site out
    = match newicks_loop variant_positions fh1 b site out with
      | (out', Ok (b', site')) => newicks_loop variant_positions fh2 b' site' out'
      | (out', Raise e) => (out', Raise e)
      | (out', Spin) => (out', Spin)
      end.
Proof.
  induction fh1 as [|line fh1 IH]; intros b site out; [reflexivity|].
  cbn [app newicks_loop nwk_line_start].
  destruct line as [|c s]; [reflexivity|].
  destruct (negb (Ascii.eqb c "[")); [apply IH|].
  destruct (negb (Py.startswith nwk_line_start (String c s))); [reflexivity|].
  destruct (decide (b <> Py.drop_chars (String.length nwk_line_start) (String c s)));
    [|apply IH].
  destruct (decide (b <> "")); [|apply IH].
  destruct (print_tree_at variant_positions site b out) as [out1 [[]|e|]];
    try reflexivity.
  apply IH.
Qed.

End Reverse.

(** * The properties of the specification *)

(** A NaN among the heights keeps the loop running for ever: [np.min] is
    NaN, no height equals it, and the pass changes nothing.  The data model
    of the specification has real numbers as heights; the properties below
    say so with [number]. *)
Remark nan_height_spins (fuel : nat) (bl : bool) :
  cluster_loop fuel bl ["A"; "B"] [Float64.nan] = Spin.
Proof. induction fuel as [|fuel IH]; [reflexivity|]. exact IH. Qed.

Lemma ABC_12_plain (fuel : nat) :
  planar_order_to_newick (2 + fuel) "A,B,C" "1,2" false = Ok "((A,B),C);".
Proof. destruct fuel; reflexivity. Qed.

Lemma ABC_12_lengths (fuel : nat) :
  planar_order_to_newick (2 + fuel) "A,B,C" "1,2" true
  = Ok "((A:1.0,B:1.0):2.0,C:2.0);".
Proof. destruct fuel; reflexivity. Qed.

(** C2, as the code has it: on order ["A,B,C"] and heights ["1,2"] the
    smallest height, 1, stands between A and B, so A and B merge first and
    C joins at height 2.  Without branch lengths the tree is
    ["((A,B),C);"]; with branch lengths each child carries the height of
    its merge, printed as float64 prints it:
    ["((A:1.0,B:1.0):2.0,C:2.0);"].  Two passes are needed, any fuel from
    two on gives the result. *)
Theorem planar_order_to_newick_ABC_12 (fuel : nat) :
  planar_order_to_newick (2 + fuel) "A,B,C" "1,2" false = Ok "((A,B),C);"
  /\ planar_order_to_newick (2 + fuel) "A,B,C" "1,2" true
     = Ok "((A:1.0,B:1.0):2.0,C:2.0);".
Proof. split; [apply ABC_12_plain | apply ABC_12_lengths]. Qed.

(** C2, as the specification words it, fails: whatever the fuel, the
    result without branch lengths is not ["(A,(B,C));"] and the result with
    branch lengths is not ["(A:1,(B:2,C:2):1);"]. *)
Lemma planar_order_to_newick_ABC_12_not_right_nested :
  ~ (exists fuel, planar_order_to_newick fuel "A,B,C" "1,2" false = Ok "(A,(B,C));")
  /\ ~ (exists fuel, planar_order_to_newick fuel "A,B,C" "1,2" true
                     = Ok "(A:1,(B:2,C:2):1);").
Proof.
  split; intros [fuel E];
    (destruct fuel as [|[|fuel]];
     [discriminate E | discriminate E |]);
    change (S (S fuel)) with (2 + fuel) in E.
  - rewrite ABC_12_plain in E. discriminate E.
  - rewrite ABC_12_lengths in E. discriminate E.
Qed.

Section ClaimsOnClustering.

Context {F : Type} `{NumPy F}.




Context `{!NumPyLaws F}.

Lemma pass_step_climbing (bl : bool) (s s' : list string * list F) :
  climbing s -> pass_step bl s s' ->
  climbing s'
  /\ exists x y rest h hs,
      s = (x :: y :: rest, h :: hs)
      /\ s' = (cluster_token (nwk_of bl h) [x; y] :: rest, hs).
Proof.
  intros (Hal & Hinc & Hnum) (h & hs & Ehs & Epass).
  destruct s as [orders heights]. simpl in *. subst heights.
  unfold aligned in Hal. destruct orders as [|x [|y rest]]; simpl in Hal; try lia.
  inversion Hnum as [|? ? Hh Hnum']; subst.
  rewrite cluster_pass_increasing in Epass by (auto; lia).
  injection Epass as <-. split.
  - repeat split; simpl; [unfold aligned; simpl; lia | | assumption].
    eapply increasing_tail; eassumption.
  - exists x, y, rest, h, hs. split; reflexivity.
Qed.

Lemma climbing_reachable (bl : bool) (s s' : list string * list F) :
  rtc (pass_step bl) s s' -> climbing s -> climbing s'.
Proof.
  induction 1 as [|s1 s2 s3 Hstep _ IH]; [auto|].
  intros Hc. apply IH. apply (pass_step_climbing bl s1 s2 Hc Hstep).
Qed.

End ClaimsOnClustering.

(** C3.  One pass on heights in which the minimum fills a maximal run
    [run] (the height before it and the height after it, if any, differ
    from the minimum): the [length run + 1] tokens [mid] that span the run
    are replaced by the single token ["(" t0 "," t1 "," ... ")"] of all of
    them, flat; as many tokens stand before (after) it as heights other
    than the minimum stand before (after) the run.  And order ["A,B,C"]
    with heights ["1,1"], no branch lengths, gives ["(A,B,C);"]. *)
Theorem equal_heights_merge_at_once :
  (forall (F : Type) (NP : NumPy F) (bl : bool)
          (opre mid opost : list string) (pre run post : list F) (h : F) (hs : list F),
      h :: hs = pre ++ run ++ post ->
      run <> [] ->
      Forall (fun x => feq x (np_min h hs) = true) run ->
      (forall x, last pre = Some x -> feq x (np_min h hs) = false) ->
      (forall y, head post = Some y -> feq y (np_min h hs) = false) ->
      length opre = length pre ->
      length mid = S (length run) ->
      length opost = length post ->
      exists left right,
        cluster_pass bl (opre ++ mid ++ opost) h hs
        = Ok (left ++ cluster_token (nwk_of bl (np_min h hs)) mid :: right,
              List.filter (fun x => negb (feq x (np_min h hs))) (h :: hs))
        /\ length left = length (List.filter (fun x => negb (feq x (np_min h hs))) pre)
        /\ length right = length (List.filter (fun x => negb (feq x (np_min h hs))) post))
  /\ (forall fuel, planar_order_to_newick (1 + fuel) "A,B,C" "1,1" false = Ok "(A,B,C);").
Proof.
  split.
  - intros F NP bl opre mid opost pre run post h hs Eh Hne Hrun Hpre Hpost Lpre Lmid Lpost.
    rewrite cluster_pass_merge_runs
      by (rewrite Eh, !length_app; lia).
    rewrite Eh.
    destruct (merge_runs_maximal_run (nwk_of bl (np_min h hs)) (np_min h hs)
                pre run post opre mid opost Hne Hrun Hpre Hpost Lpre Lmid Lpost)
      as (left & right & E & Ll & Lr).
    exists left, right. rewrite E. split; [reflexivity | split; assumption].
  - intros fuel. destruct fuel; reflexivity.
Qed.

Lemma equal_heights_merge_at_once_witness :
  exists left right,
    cluster_pass true (["A"] ++ ["B"; "C"; "D"] ++ ["E"; "F"])
      (Float64.whole 3) [Float64.whole 1; Float64.whole 1; Float64.whole 2; Float64.whole 1]
    = Ok (left ++ "(B:1.0,C:1.0,D:1.0)" :: right, [Float64.whole 3; Float64.whole 2])
    /\ length left = 1 /\ length right = 1.
Proof.
  destruct (proj1 equal_heights_merge_at_once Float64.t _ true
              ["A"] ["B"; "C"; "D"] ["E"; "F"]
              [Float64.whole 3] [Float64.whole 1; Float64.whole 1]
              [Float64.whole 2; Float64.whole 1]
              (Float64.whole 3)
              [Float64.whole 1; Float64.whole 1; Float64.whole 2; Float64.whole 1])
    as (left & right & E & Ll & Lr).
  - reflexivity.
  - discriminate.
  - repeat constructor.
  - intros x [= <-]. reflexivity.
  - intros y [= <-]. reflexivity.
  - reflexivity.
  - reflexivity.
  - reflexivity.
  - exists left, right. split; [exact E | split; [exact Ll | exact Lr]].
Defined.

(** C6.  With strictly increasing heights (all of them numbers, tokens and
    branch lengths free of brackets) every pass of the loop is exactly one
    binary merge, of the first two tokens at the first height; the result
    is the left-nested binary bracket structure [nest], and its nesting
    depth is the number of merges, the length of the height sequence. *)
Theorem increasing_heights_nest
    (F : Type) (NP : NumPy F) (LAWS : NumPyLaws F) (bl : bool)
    (order_string height_string : string) (a : string) (os : list string) (hs : list F) :
  Py.split "," order_string = a :: os ->
  fromstring height_string "," = Ok hs ->
  length os = length hs ->
  increasing hs ->
  Forall number hs ->
  Forall (fun o => plain o = true) (a :: os) ->
  Forall (fun h => plain (nwk_of bl h) = true) hs ->
  (forall s s', rtc (pass_step bl) (a :: os, hs) s -> pass_step bl s s' ->
     exists x y rest h hs',
       s = (x :: y :: rest, h :: hs')
       /\ s' = (cluster_token (nwk_of bl h) [x; y] :: rest, hs'))
  /\ (forall fuel, length hs <= fuel ->
        planar_order_to_newick fuel order_string height_string bl
        = Ok (nest bl a os hs +:+ ";"))
  /\ bracket_depth (nest bl a os hs +:+ ";") = length hs.
Proof.
  intros Esplit Eparse Hlen Hinc Hnum Hplain Hnwk.
  split; [|split].
  - intros s s' Hreach Hstep.
    assert (Hc : climbing (a :: os, hs))
      by (repeat split; simpl; [unfold aligned; simpl; lia | assumption | assumption]).
    apply (pass_step_climbing bl s s' (climbing_reachable bl _ _ Hreach Hc) Hstep).
  - intros fuel Hfuel. unfold planar_order_to_newick.
    rewrite Esplit, Eparse. cbn [rbind].
    rewrite cluster_loop_increasing by assumption. reflexivity.
  - inversion Hplain as [|? ? Ha Hos]; subst.
    apply bracket_depth_tree.
    apply (nested_nest bl hs a os 0 Hlen Hos Hnwk (nested_plain a Ha)).
Qed.

Lemma increasing_heights_nest_witness :
  (forall fuel, 3 <= fuel ->
     planar_order_to_newick fuel "A,B,C,D" "1,2,3" true
     = Ok "(((A:1.0,B:1.0):2.0,C:2.0):3.0,D:3.0);")
  /\ bracket_depth "(((A:1.0,B:1.0):2.0,C:2.0):3.0,D:3.0);" = 3.
Proof.
  destruct (increasing_heights_nest Float64.t _ _ true "A,B,C,D" "1,2,3"
              "A" ["B"; "C"; "D"] [Float64.whole 1; Float64.whole 2; Float64.whole 3])
    as (_ & Hloop & Hdepth).
  - reflexivity.
  - reflexivity.
  - reflexivity.
  - simpl. repeat split; reflexivity.
  - repeat constructor.
  - repeat constructor.
  - repeat constructor.
  - split; [exact Hloop | exact Hdepth].
Defined.



(** ** Accounting *)

Lemma run_boundaries_bound {R : Type} `{EqDecision R} (recs : list R) :
  Forall (fun e => e < length recs) (run_boundaries recs).
Proof.
  destruct recs as [|r recs]; [constructor|].
  unfold run_boundaries, group_runs.
  pose proof (boundaries_exits recs r 1 1 ltac:(lia)) as E.
  change (1 - 1) with 0 in E. rewrite <- E.
  apply (boundaries_bound recs r 1).
Qed.

Lemma converter_accounting_intro {P L R : Type} `{Str P} `{Str L} `{EqDecision R}
    (run : list string * result unit) (preamble : list string)
    (render : R -> result string) (recs : list R)
    (variant_positions : list P) (seq_length : L) :
  (length recs = length variant_positions ->
   run = (preamble
            ++ run_lines render variant_positions seq_length 0 (group_runs recs)
            ++ [nexus_end], Ok tt)) ->
  (length recs <> length variant_positions ->
   Forall (fun e => e < length variant_positions) (run_boundaries recs) ->
   snd run = Raise (ValueError (accounting_message (length recs)
                                  (length variant_positions)))) ->
  (Exists (fun e => length variant_positions <= e) (run_boundaries recs) ->
   snd run = Raise IndexError) ->
  converter_accounting run preamble render recs variant_positions seq_length.
Proof.
  intros Hok Hacc Hidx. split; [|split; [|split]].
  - intros Hlen. split; [apply Hok, Hlen|].
    rewrite group_runs_sizes. exact Hlen.
  - split.
    + intros E. split.
      * intros Hlen. rewrite (Hok Hlen) in E. discriminate E.
      * destruct (Forall_Exists_dec (fun e => e < length variant_positions)
                    (fun e => length variant_positions <= e)
                    (fun e => match le_lt_dec (length variant_positions) e with
                              | left Hle => right Hle
                              | right Hlt => left Hlt
                              end)
                    (run_boundaries recs)) as [Hall | Hex]; [exact Hall|].
        rewrite (Hidx Hex) in E. discriminate E.
    + intros [Hlen Hall]. apply Hacc; assumption.
  - intros Hlt. apply Hacc; [lia|].
    eapply Forall_impl; [apply run_boundaries_bound|].
    intros e He. simpl in He. lia.
  - exact Hidx.
Qed.

(** C1, as the code has it.  For a well-formed forward-form file (each
    record renders, the height line of the last record is not blank) and
    for well-formed reverse-form lines (each tree line carries a tree):
    with as many site records as positions the conversion ends without
    error, writes one [TREE] statement per run, and the run sizes sum to
    the number of sites; the accounting [ValueError] naming both counts is
    raised exactly when the counts differ and the scan reaches the end of
    the input, that is when every change of tree falls at a site that has
    a position; a change of tree at a site beyond the position index
    raises [IndexError] from the position lookup before the accounting
    check is reached. *)
Theorem accounting_on_well_formed_input
    (F : Type) (NP : NumPy F) (P L : Type) (SP : Str P) (SL : Str L)
    (fuel : nat) (pitems : list planar_item) (nitems : list newick_item)
    (variant_positions : list P) (seq_length : L) (num_tips : Z) :
  Forall planar_item_ok pitems ->
  Forall (renders (planar_render fuel)) (planar_records pitems) ->
  (forall r, last (planar_records pitems) = Some r -> snd r <> "") ->
  Forall newick_item_ok nitems ->
  converter_accounting
    (planar_to_nexus fuel (planar_lines pitems) variant_positions seq_length)
    [nexus_header] (planar_render fuel) (planar_records pitems)
    variant_positions seq_length
  /\ converter_accounting
       (newicks_to_nexus (newick_lines nitems) variant_positions seq_length num_tips)
       [nexus_header; translate_block num_tips] tree_render (newick_records nitems)
       variant_positions seq_length.
Proof.
  intros Hpok Hren Hlast Hnok. split.
  - destruct (planar_to_nexus_by_runs fuel pitems variant_positions seq_length
                Hpok Hren Hlast) as (H1 & H2 & H3).
    apply converter_accounting_intro; assumption.
  - destruct (newicks_to_nexus_by_runs nitems variant_positions seq_length num_tips Hnok)
      as (H1 & H2 & H3).
    apply converter_accounting_intro; assumption.
Qed.

Lemma accounting_on_well_formed_input_witness :
  converter_accounting
    (planar_to_nexus 2
       (planar_lines [Junk "# argentum"; Site "0,1,2" "1,2"; Site "0,1,2" "1,2";
                      Site "0,1,2" "2,1"])
       [10%Z; 20%Z; 30%Z] 100%Z)
    [nexus_header] (planar_render 2)
    (planar_records [Junk "# argentum"; Site "0,1,2" "1,2"; Site "0,1,2" "1,2";
                     Site "0,1,2" "2,1"])
    [10%Z; 20%Z; 30%Z] 100%Z
  /\ converter_accounting
       (newicks_to_nexus
          (newick_lines [Tree "(1,2);"; Skipped "x"; Tree "(1,2);"; Tree "(2,1);"])
          [10%Z; 20%Z; 30%Z] 100%Z 3%Z)
       [nexus_header; translate_block 3] tree_render
       (newick_records [Tree "(1,2);"; Skipped "x"; Tree "(1,2);"; Tree "(2,1);"])
       [10%Z; 20%Z; 30%Z] 100%Z.
Proof.
  apply (accounting_on_well_formed_input Float64.t _ Z Z _ _ 2).
  - repeat constructor; discriminate.
  - repeat constructor; eexists; reflexivity.
  - intros r [= <-]. discriminate.
  - repeat constructor; try discriminate. exists "x"%char. split; [reflexivity | discriminate].
Defined.

(** C1, as the specification words it, fails: two tree lines against an
    empty position index are a mismatch of the counts, yet what is raised
    is not the accounting [ValueError]; the lookup of the position of the
    second site raises [IndexError]. *)
Lemma accounting_error_preempted :
  ~ ((exists msg,
        snd (newicks_to_nexus (newick_lines [Tree "a;"; Tree "b;"]) (@nil Z) 100%Z 2%Z)
        = Raise (ValueError msg))
     <-> length (newick_records [Tree "a;"; Tree "b;"]) <> length (@nil Z)).
Proof.
  intros [_ Hc]. destruct Hc as [msg E]; [discriminate|].
  vm_compute in E. discriminate E.
Qed.

(** C4: the code on the file of one site whose order has a single tip and
    whose height line is therefore blank.  The records form one run, the
    conversion ends without error, and no [TREE] statement is written for
    that run: the final flush tests the height line where the flush inside
    the loop tests the order.  The same record followed by another one is
    written, by the flush inside the loop. *)
Theorem final_run_with_blank_height (fuel : nat) :
  file_lines ("0" +:+ newline +:+ newline)
  = planar_lines [Site ("0" +:+ newline) newline]
  /\ planar_records [Site ("0" +:+ newline) newline] = [("0", "")]
  /\ group_runs [("0", "")] = [(("0", ""), 1)]
  /\ planar_to_nexus fuel (planar_lines [Site ("0" +:+ newline) newline])
       [10%Z] 100%Z
     = ([nexus_header; nexus_end], Ok tt)
  /\ planar_to_nexus (1 + fuel)
       (planar_lines [Site ("0" +:+ newline) newline;
                      Site ("0,1" +:+ newline) ("1" +:+ newline)])
       [10%Z; 20%Z] 100%Z
     = ([nexus_header;
         "TREE 20 = 0;" +:+ newline;
         "TREE 100 = (0:1.0,1:1.0);" +:+ newline;
         nexus_end], Ok tt).
Proof.
  split; [reflexivity|]. split; [reflexivity|]. split; [reflexivity|].
  split; destruct fuel; reflexivity.
Qed.

(** ** Lines that are not data, and the envelope *)



(** C5.  In [newicks_to_nexus], after lines [fh1] that were read without
    error: a line that starts with the bracket of the sentinel but not
    with the sentinel ["[0]"] raises [AssertionError] at once, nothing more
    is written and the lines after it are not read; a line whose first
    character is not that bracket is passed over, the conversion is the
    conversion of the input without that line. *)
Theorem sentinel_is_asserted
    (P L : Type) (SP : Str P) (SL : Str L)
    (fh1 fh2 : list string) (line : string)
    (variant_positions : list P) (seq_length : L) (num_tips : Z)
    (out1 : list string) (b1 : string) (site1 : nat) :
  newicks_loop variant_positions fh1 "" 0 [nexus_header; translate_block num_tips]
  = (out1, Ok (b1, site1)) ->
  (first_char line = Some "["%char -> Py.startswith "[0]" line = false ->
   newicks_to_nexus (fh1 ++ line :: fh2) variant_positions seq_length num_tips
   = (out1, Raise AssertionError))
  /\ (forall c, first_char line = Some c -> c <> "["%char ->
      newicks_to_nexus (fh1 ++ line :: fh2) variant_positions seq_length num_tips
      = newicks_to_nexus (fh1 ++ fh2) variant_positions seq_length num_tips).
Proof.
  intros E1. unfold newicks_to_nexus. rewrite !newicks_loop_app, E1. split.
  - intros Hc Hs. destruct line as [|c s]; [discriminate|]. injection Hc as ->.
    cbn [newicks_loop nwk_line_start]. change (Ascii.eqb "[" "[") with true.
    cbn [negb]. change (Py.startswith nwk_line_start (String "[" s))
      with (Py.startswith "[0]" (String "[" s)).
    rewrite Hs. reflexivity.
  - intros c Hc Hne. destruct line as [|c' s]; [discriminate|]. injection Hc as ->.
    cbn [newicks_loop nwk_line_start].
    rewrite (proj2 (Ascii.eqb_neq c "[") Hne). reflexivity.
Qed.

Lemma sentinel_is_asserted_witness :
  newicks_to_nexus (["[0](1,2);"; "[0](2,1);"] ++ "[1](2,1);" :: ["[0](2,1);"])
    [10%Z; 20%Z; 30%Z] 100%Z 2%Z
  = ([nexus_header; translate_block 2; "TREE 20 = (1,2);" +:+ newline],
     Raise AssertionError)
  /\ newicks_to_nexus (["[0](1,2);"; "[0](2,1);"] ++ "#[0]" :: ["[0](2,1);"])
       [10%Z; 20%Z; 30%Z] 100%Z 2%Z
     = newicks_to_nexus (["[0](1,2);"; "[0](2,1);"] ++ ["[0](2,1);"])
         [10%Z; 20%Z; 30%Z] 100%Z 2%Z.
Proof.
  destruct (sentinel_is_asserted Z Z _ _ ["[0](1,2);"; "[0](2,1);"] ["[0](2,1);"]
              "[1](2,1);" [10%Z; 20%Z; 30%Z] 100%Z 2%Z
              [nexus_header; translate_block 2; "TREE 20 = (1,2);" +:+ newline]
              "(2,1);" 2) as [Hassert _]; [reflexivity|].
  destruct (sentinel_is_asserted Z Z _ _ ["[0](1,2);"; "[0](2,1);"] ["[0](2,1);"]
              "#[0]" [10%Z; 20%Z; 30%Z] 100%Z 2%Z
              [nexus_header; translate_block 2; "TREE 20 = (1,2);" +:+ newline]
              "(2,1);" 2) as [_ Hskip]; [reflexivity|].
  split.
  - apply Hassert; reflexivity.
  - apply (Hskip "#"%char); [reflexivity | discriminate].
Defined.

(** C8: the code when [np.fromstring] raises on the first line.  The
    warning is logged, and the [return] that follows reads the local
    variable [positions], which the failed [try] body never bound: the call
    raises [UnboundLocalError] to its caller. *)
Theorem variant_positions_parse_failure
    (F : Type) (NP : NumPy F) (line : string) (rest : list string) (e : exn) :
  fromstring (Py.rstrip line) " " = Raise e ->
  variant_positions_from_fn (line :: rest)
  = ([parse_warning line], Raise UnboundLocalError).
Proof. intros E. unfold variant_positions_from_fn. rewrite E. reflexivity. Qed.

Lemma variant_positions_parse_failure_witness :
  variant_positions_from_fn (F:=Float64.t) ["1.5 x 9" +:+ newline; "2 3"]
  = ([parse_warning ("1.5 x 9" +:+ newline)], Raise UnboundLocalError).
Proof.
  apply (variant_positions_parse_failure Float64.t _ ("1.5 x 9" +:+ newline) ["2 3"]
           (ValueError "string or file could not be read to its end due to unmatched data")).
  reflexivity.
Defined.

Lemma translate_pairs (n : nat) :
  map (fun i => str (i + 1)%Z +:+ " " +:+ str i) (map Z.of_nat (seq 0 n))
  = map (fun k => str k +:+ " " +:+ str (k - 1)%Z) (map Z.of_nat (seq 1 n)).
Proof.
  rewrite <- seq_shift, !map_map. apply map_ext. intros i.
  replace (Z.of_nat (S i)) with (Z.of_nat i + 1)%Z by lia.
  replace (Z.of_nat i + 1 - 1)%Z with (Z.of_nat i) by lia. reflexivity.
Qed.

(** C9.  Whatever its input, [newicks_to_nexus] writes, right after the
    header, the [TRANSLATE] block of the tip count: the word [TRANSLATE],
    a line feed, the pairs ["k k-1"] for [k] from 1 to [n] separated by a
    comma and a line feed, a semicolon (and the line feed of [print]).  For
    tip count 3 the pairs read ["1 0,"], ["2 1,"], ["3 2;"] on three
    lines. *)
Theorem translate_block_pairs :
  (forall (P L : Type) (SP : Str P) (SL : Str L) (fh : list string)
          (variant_positions : list P) (seq_length : L) (num_tips : Z),
      exists rest,
        fst (newicks_to_nexus fh variant_positions seq_length num_tips)
        = nexus_header :: translate_block num_tips :: rest)
  /\ (forall n : Z,
        translate_block n
        = ("TRANSLATE" +:+ newline
           +:+ Py.join ("," +:+ newline)
                 (map (fun k => str k +:+ " " +:+ str (k - 1)%Z)
                    (map Z.of_nat (seq 1 (Z.to_nat n))))
           +:+ ";") +:+ newline)
  /\ translate_block 3
     = ("TRANSLATE" +:+ newline
        +:+ "1 0," +:+ newline +:+ "2 1," +:+ newline +:+ "3 2;") +:+ newline.
Proof.
  split; [|split].
  - intros P L SP SL fh variant_positions seq_length num_tips.
    unfold newicks_to_nexus.
    destruct (newicks_loop_appends variant_positions fh "" 0
                [nexus_header; translate_block num_tips]) as [more E].
    destruct (newicks_loop variant_positions fh "" 0
                [nexus_header; translate_block num_tips]) as [out [[b site]|e|]];
      simpl in E; subst out.
    + destruct (decide (site <> length variant_positions));
        [exists more; reflexivity|].
      destruct (decide (b <> ""));
        [exists (more ++ [tree_line (str seq_length) b] ++ [nexus_end])
        | exists (more ++ [nexus_end])]; reflexivity.
    + exists more. reflexivity.
    + exists more. reflexivity.
  - intros n. unfold translate_block, print, Py.range.
    rewrite translate_pairs. reflexivity.
  - reflexivity.
Qed.



(** * Further properties of the code *)

(** ** The clusterer on input that is not aligned *)

Section Misaligned.

Context {F : Type} `{NumPy F}.

Lemma intervals_chained (runs : list bool) :
  forall i,
    (forall lo, lo <= i -> chained lo (intervals i None runs))
    /\ (forall s lo, lo <= s -> s < i -> chained lo (intervals i (Some s) runs)).
Proof.
  induction runs as [|b runs IH]; intros i.
  - split; [intros; exact I|]. intros s lo Hlo Hs. simpl. auto.
  - destruct (IH (S i)) as [IH0 IH1]. destruct b; simpl.
    + split.
      * intros lo Hlo. apply IH1; lia.
      * intros s lo Hlo Hs. apply IH1; lia.
    + split.
      * intros lo Hlo. apply IH0. lia.
      * intros s lo Hlo Hs. split; [exact Hlo|]. split; [exact Hs|]. apply IH0. lia.
Qed.

Lemma intervals_span (runs : list bool) :
  forall i,
    span (intervals i None runs) = ons runs
    /\ forall s, s <= i -> span (intervals i (Some s) runs) = ons runs + (i - s).
Proof.
  unfold span, ons.
  induction runs as [|b runs IH]; intros i.
  - split; [reflexivity|]. intros s Hs. simpl. lia.
  - destruct (IH (S i)) as [IH0 IH1]. destruct b; simpl.
    + split.
      * rewrite IH1 by lia. lia.
      * intros s Hs. rewrite IH1 by lia. lia.
    + split; [apply IH0|]. intros s Hs. rewrite IH0. lia.
Qed.

Lemma intervals_ends (runs : list bool) :
  forall i open,
    Forall (fun p => snd p <= i + length runs) (intervals i open runs).
Proof.
  induction runs as [|b runs IH]; intros i open.
  - destruct open; simpl; repeat constructor. simpl. lia.
  - destruct b; simpl.
    + eapply Forall_impl; [apply IH|]. intros p Hp. simpl in Hp. lia.
    + destruct open.
      * constructor; [simpl; lia|].
        eapply Forall_impl; [apply IH|]. intros p Hp. simpl in Hp. lia.
      * eapply Forall_impl; [apply IH|]. intros p Hp. simpl in Hp. lia.
Qed.

(** One iteration of the [for] loop in range: the list loses [e - s]
    entries and is not emptied. *)
Lemma merge_step_length (orders : list string) (start end_ : nat) (tok : string) :
  start <= end_ -> end_ < length orders ->
  length (Py.del_slice (<[end_ := tok]> orders) start end_) + (end_ - start)
  = length orders.
Proof.
  intros Hse He. unfold Py.del_slice.
  rewrite length_app, length_take, length_drop, length_insert. lia.
Qed.

(** The [for] loop on any list of tokens: it raises [IndexError], or it
    removes exactly [span pairs] tokens and leaves at least one. *)
Lemma merge_loop_outcome nwk (pairs : list (nat * nat)) :
  forall orders removed lo,
    chained lo pairs -> removed <= lo ->
    merge_loop nwk pairs orders removed = Raise IndexError
    \/ exists orders',
        merge_loop nwk pairs orders removed = Ok orders'
        /\ length orders' + span pairs = length orders
        /\ (orders <> [] -> orders' <> []).
Proof.
  induction pairs as [|[s e] pairs IH]; intros orders removed lo Hch Hrem.
  - right. exists orders. unfold span. simpl. repeat split; [lia | auto].
  - destruct Hch as (Hlo & Hse & Hch). cbn [merge_loop].
    destruct (decide (e - removed < length orders)) as [Hin | Hout]; [|left; reflexivity].
    set (tok := cluster_token nwk (Py.slice orders (s - removed) (e - removed + 1))).
    pose proof (merge_step_length orders (s - removed) (e - removed) tok
                  ltac:(lia) Hin) as Hlen.
    destruct (IH (Py.del_slice (<[e - removed := tok]> orders) (s - removed) (e - removed))
                (removed + (e - removed - (s - removed))) e Hch ltac:(lia))
      as [E | (orders' & E & Hl & Hne)]; [left; exact E|].
    right. exists orders'. split; [exact E|]. split.
    + unfold span in *. simpl. lia.
    + intros _. apply Hne. intros Hnil. rewrite Hnil in Hlen. simpl in Hlen. lia.
Qed.

(** One pass on any list of tokens. *)
Lemma cluster_pass_outcome (bl : bool) (orders : list string) (h : F) (hs : list F) :
  cluster_pass bl orders h hs = Raise IndexError
  \/ exists orders',
      cluster_pass bl orders h hs
      = Ok (orders', List.filter (fun x => negb (feq x (np_min h hs))) (h :: hs))
      /\ length orders' + ons (runs_of_min_height (np_min h hs) (h :: hs)) = length orders
      /\ (orders <> [] -> orders' <> []).
Proof.
  unfold cluster_pass, np_where, bounded. fold flag.
  destruct (zip_where_intervals (runs_of_min_height (np_min h hs) (h :: hs)) 0) as [-> _].
  destruct (merge_loop_outcome (if bl then ":" +:+ fstr (np_min h hs) else "")
              (intervals 0 None (runs_of_min_height (np_min h hs) (h :: hs)))
              orders 0 0) as [E | (orders' & E & Hl & Hne)].
  - apply (proj1 (intervals_chained _ 0)). lia.
  - lia.
  - left. rewrite E. reflexivity.
  - right. exists orders'. rewrite E. split; [reflexivity|].
    rewrite (proj1 (intervals_span _ 0)) in Hl. split; assumption.
Qed.

Lemma cluster_loop_too_few (bl : bool) :
  forall fuel orders heights,
    orders <> [] -> length orders <= length heights ->
    Forall number heights -> length heights <= fuel ->
    cluster_loop fuel bl orders heights = Raise IndexError.
Proof.
  induction fuel as [|fuel IH]; intros orders heights Hne Hlen Hnum Hfuel.
  - destruct heights; simpl in *; [|lia]. destruct orders; simpl in *; [congruence | lia].
  - destruct heights as [|h hs].
    + destruct orders; simpl in *; [congruence | lia].
    + cbn [cluster_loop].
      destruct (cluster_pass_outcome bl orders h hs) as [E | (orders' & E & Hl & Hne')].
      * rewrite E. reflexivity.
      * rewrite E. cbn [rbind fst snd].
        pose proof (ons_runs (np_min h hs) (h :: hs)) as Hons.
        assert (Hshrink :
                  length (List.filter (fun x => negb (feq x (np_min h hs))) (h :: hs))
                  < length (h :: hs)).
        { apply filter_shrinks; [apply np_min_In|].
          rewrite Forall_forall in Hnum. apply Hnum, list_elem_of_In, np_min_In. }
        apply IH.
        -- apply Hne', Hne.
        -- lia.
        -- apply Forall_filter_keep, Hnum.
        -- simpl in *. lia.
Qed.

End Misaligned.

(** X1.  Too few tokens.  When the order has no more tokens than there
    are heights (the heights being numbers), the clustering runs out of
    tokens: [planar_order_to_newick] raises [IndexError] from
    [orders[end] = ...], whatever the branch-length flag, and returns no
    tree. *)
Theorem too_few_tokens_raise
    (F : Type) (NP : NumPy F) (bl : bool) (fuel : nat)
    (order_string height_string : string) (heights : list F) :
  fromstring height_string "," = Ok heights ->
  length (Py.split "," order_string) <= length heights ->
  Forall number heights ->
  length heights <= fuel ->
  planar_order_to_newick fuel order_string height_string bl = Raise IndexError.
Proof.
  intros Eparse Hlen Hnum Hfuel. unfold planar_order_to_newick.
  rewrite Eparse. cbn [rbind].
  rewrite cluster_loop_too_few; [reflexivity | | assumption..].
  destruct order_string as [|c s]; simpl; [discriminate|].
  destruct (Ascii.eqb c ","); [discriminate|]. destruct (Py.split "," s); discriminate.
Qed.

Lemma too_few_tokens_raise_witness :
  planar_order_to_newick 2 "A,B" "2,1" true = Raise IndexError.
Proof.
  apply (too_few_tokens_raise Float64.t _ true 2 "A,B" "2,1"
           [Float64.whole 2; Float64.whole 1]).
  - reflexivity.
  - simpl. lia.
  - repeat constructor.
  - simpl. lia.
Defined.

Section Surplus.

Context {F : Type} `{NumPy F}.

(** The [for] loop is the scan also when tokens stand beyond the last
    height. *)
Lemma merge_loop_runs_surplus nwk (runs : list bool) :
  forall i open (done group rest : list string) removed,
    S (length runs) <= length rest ->
    match open with
    | Some s => s = removed + length done /\ i = s + length group /\ group <> []
    | None => group = [] /\ i = removed + length done
    end ->
    merge_loop nwk (intervals i open runs) (done ++ group ++ rest) removed
    = Ok (done ++ merge_runs nwk group rest runs).
Proof.
  induction runs as [|b runs IH]; intros i open done group rest removed Hlen Hopen.
  - destruct rest as [|o extra]; simpl in Hlen; [lia|].
    destruct open as [s|].
    + destruct Hopen as (-> & -> & Hne). simpl intervals. cbn [merge_loop].
      replace (removed + length done - removed) with (length done) by lia.
      replace (removed + length done + length group - removed)
        with (length done + length group) by lia.
      destruct (merge_step done group extra o
                  (cluster_token nwk (Py.slice (done ++ group ++ o :: extra) (length done)
                                        (length done + length group + 1)))) as [Hs Hd].
      rewrite decide_True by (rewrite !length_app; simpl; lia).
      rewrite Hd, Hs. simpl. rewrite close_group_several by assumption. reflexivity.
    + destruct Hopen as (-> & ->). reflexivity.
  - destruct rest as [|o rest]; simpl in Hlen; [lia|].
    destruct b.
    + simpl intervals. simpl merge_runs.
      replace (done ++ group ++ o :: rest) with (done ++ (group ++ [o]) ++ rest)
        by (rewrite <- (app_assoc group); reflexivity).
      apply IH; [lia|].
      destruct open as [s|]; simpl.
      * destruct Hopen as (-> & -> & Hne). rewrite length_app. simpl.
        split; [reflexivity|]. split; [lia | destruct group; discriminate].
      * destruct Hopen as (-> & ->). simpl.
        split; [reflexivity|]. split; [lia | discriminate].
    + destruct open as [s|].
      * destruct Hopen as (-> & -> & Hne). simpl intervals. cbn [merge_loop].
        replace (removed + length done - removed) with (length done) by lia.
        replace (removed + length done + length group - removed)
          with (length done + length group) by lia.
        destruct (merge_step done group rest o
                    (cluster_token nwk (Py.slice (done ++ group ++ o :: rest) (length done)
                                          (length done + length group + 1)))) as [Hs Hd].
        rewrite decide_True by (rewrite !length_app; simpl; lia).
        rewrite Hd, Hs. simpl merge_runs.
        rewrite close_group_several by assumption.
        replace (done ++ cluster_token nwk (group ++ [o]) :: rest)
          with ((done ++ [cluster_token nwk (group ++ [o])]) ++ [] ++ rest)
          by (rewrite <- app_assoc; reflexivity).
        rewrite (IH (S (removed + length done + length group)) None
                   (done ++ [cluster_token nwk (group ++ [o])]) [] rest
                   (removed + (length done + length group - length done))).
        -- rewrite <- app_assoc. reflexivity.
        -- lia.
        -- split; [reflexivity|]. rewrite length_app. simpl. lia.
      * destruct Hopen as (-> & ->). simpl intervals. simpl merge_runs.
        replace (done ++ [] ++ o :: rest) with ((done ++ [o]) ++ [] ++ rest)
          by (rewrite <- app_assoc; reflexivity).
        rewrite (IH (S (removed + length done)) None (done ++ [o]) [] rest removed).
        -- rewrite <- app_assoc. reflexivity.
        -- lia.
        -- split; [reflexivity|]. rewrite length_app. simpl. lia.
Qed.

Lemma cluster_pass_surplus (bl : bool) (orders : list string) (h : F) (hs : list F) :
  S (length (h :: hs)) <= length orders ->
  cluster_pass bl orders h hs
  = Ok (merge_runs (nwk_of bl (np_min h hs)) [] orders
          (runs_of_min_height (np_min h hs) (h :: hs)),
        List.filter (fun x => negb (feq x (np_min h hs))) (h :: hs)).
Proof.
  intros Hlen. unfold cluster_pass, np_where, bounded.
  fold flag. fold (nwk_of bl (np_min h hs)).
  destruct (zip_where_intervals (runs_of_min_height (np_min h hs) (h :: hs)) 0) as [-> _].
  pose proof (merge_loop_runs_surplus (nwk_of bl (np_min h hs))
                (runs_of_min_height (np_min h hs) (h :: hs)) 0 None [] [] orders 0) as E.
  simpl app in E. rewrite E; [reflexivity | | split; reflexivity].
  unfold runs_of_min_height. rewrite length_map. exact Hlen.
Qed.

(** Tokens beyond the last height pass through the scan untouched. *)
Lemma merge_runs_extra nwk (runs : list bool) :
  forall group orders extra,
    length orders = S (length runs) ->
    merge_runs nwk group (orders ++ extra) runs
    = merge_runs nwk group orders runs ++ extra.
Proof.
  induction runs as [|b runs IH]; intros group orders extra Hlen.
  - destruct orders as [|o [|? ?]]; simpl in Hlen; try lia. reflexivity.
  - destruct orders as [|o orders]; simpl in Hlen; [lia|].
    destruct b; simpl.
    + apply IH. lia.
    + f_equal. apply IH. lia.
Qed.

Lemma cluster_loop_surplus (bl : bool) (extra : list string) :
  forall fuel orders heights,
    aligned orders heights ->
    cluster_loop fuel bl (orders ++ extra) heights
    = match cluster_loop fuel bl orders heights with
      | Ok toks => Ok (toks ++ extra)
      | Raise e => Raise e
      | Spin => Spin
      end.
Proof.
  induction fuel as [|fuel IH]; intros orders heights Hal.
  - destruct heights; reflexivity.
  - destruct heights as [|h hs]; [reflexivity|].
    cbn [cluster_loop].
    destruct (cluster_pass_lengths bl orders h hs Hal) as (o' & h' & E & _ & Hal' & _).
    rewrite (cluster_pass_merge_runs bl orders h hs Hal) in E.
    injection E as <- <-.
    rewrite (cluster_pass_merge_runs bl orders h hs Hal).
    rewrite cluster_pass_surplus
      by (unfold aligned in Hal; rewrite length_app; simpl length in *; lia).
    rewrite merge_runs_extra
      by (unfold runs_of_min_height; rewrite length_map; exact Hal).
    cbn [rbind fst snd]. apply IH, Hal'.
Qed.

(** A NaN among the heights makes [np.min] NaN. *)
Lemma np_min_nan (hs : list F) :
  (forall a b : F, flt a b = true -> number b) ->
  forall h, isnan h = true \/ Exists (fun x => isnan x = true) hs ->
            isnan (np_min h hs) = true.
Proof.
  intros Hlt. unfold np_min.
  induction hs as [|x hs IH]; intros h Hnan; simpl.
  - destruct Hnan as [Hh | Hex]; [exact Hh | inversion Hex].
  - apply IH. unfold minimum.
    destruct (isnan h) eqn:Eh.
    + left. rewrite orb_true_r. exact Eh.
    + rewrite orb_false_r. destruct Hnan as [Hh | Hex]; [discriminate|].
      inversion Hex as [? ? Hx | ? ? Hex']; subst.
      * destruct (flt h x) eqn:Elt; [|left; exact Hx].
        apply Hlt in Elt. unfold number in Elt. unfold isnan in Hx.
        rewrite Elt in Hx. discriminate.
      * right. exact Hex'.
Qed.

(** With a NaN minimum a pass changes nothing. *)
Lemma cluster_pass_nan (bl : bool) (orders : list string) (h : F) (hs : list F) :
  (forall a b : F, feq a b = true -> number b) ->
  isnan (np_min h hs) = true ->
  cluster_pass bl orders h hs = Ok (orders, h :: hs).
Proof.
  intros Heq Hnan.
  assert (Hoff : forall x, feq x (np_min h hs) = false).
  { intros x. destruct (feq x (np_min h hs)) eqn:E; [|reflexivity].
    apply Heq in E. unfold number in E. unfold isnan in Hnan.
    rewrite E in Hnan. discriminate. }
  unfold cluster_pass, np_where, bounded. fold flag.
  destruct (zip_where_intervals (runs_of_min_height (np_min h hs) (h :: hs)) 0) as [-> _].
  assert (Eruns : forall l i, intervals i None (runs_of_min_height (np_min h hs) l) = []).
  { induction l as [|x l IHl]; intros i; simpl; [reflexivity|].
    rewrite Hoff. apply IHl. }
  rewrite Eruns. cbn [merge_loop rbind]. do 2 f_equal.
  assert (Ekeep : forall l, List.filter (fun x => negb (feq x (np_min h hs))) l = l).
  { induction l as [|x l IHl]; simpl; [reflexivity|]. rewrite Hoff. simpl. f_equal. exact IHl. }
  apply Ekeep.
Qed.

End Surplus.

(** X2.  Surplus tokens.  When the order has more tokens than heights
    plus one, no error is raised: the first [len(heights) + 1] tokens are
    clustered as if they were the whole order, and the tokens after them
    are dropped from the returned tree without notice. *)
Theorem surplus_tokens_dropped
    (F : Type) (NP : NumPy F) (bl : bool) (fuel : nat)
    (order_string height_string : string)
    (orders extra : list string) (heights : list F) :
  Py.split "," order_string = orders ++ extra ->
  fromstring height_string "," = Ok heights ->
  aligned orders heights ->
  Forall number heights ->
  length heights <= fuel ->
  exists tok,
    cluster_loop fuel bl orders heights = Ok [tok]
    /\ planar_order_to_newick fuel order_string height_string bl = Ok (tok +:+ ";").
Proof.
  intros Esplit Eparse Hal Hnum Hfuel.
  destruct (cluster_loop_terminates bl fuel orders heights Hal Hnum Hfuel) as [tok E].
  exists tok. split; [exact E|].
  unfold planar_order_to_newick. rewrite Esplit, Eparse. cbn [rbind].
  rewrite (cluster_loop_surplus bl extra fuel orders heights Hal), E. reflexivity.
Qed.

Lemma surplus_tokens_dropped_witness :
  exists tok,
    cluster_loop 1 true ["A"; "B"] [Float64.whole 1] = Ok [tok]
    /\ planar_order_to_newick 1 "A,B,C,D" "1" true = Ok (tok +:+ ";").
Proof.
  apply (surplus_tokens_dropped Float64.t _ true 1 "A,B,C,D" "1"
           ["A"; "B"] ["C"; "D"] [Float64.whole 1]).
  - reflexivity.
  - reflexivity.
  - reflexivity.
  - repeat constructor.
  - simpl. lia.
Defined.

(** X3.  A NaN height.  With IEEE comparison (a comparison that holds has
    numbers on both sides), as soon as one height is NaN the [while] loop
    never ends: [np.min] is NaN, no height equals it, the pass removes
    nothing, and the loop is still running whatever fuel it is given. *)
Theorem nan_height_never_ends
    (F : Type) (NP : NumPy F) (bl : bool) (orders : list string) (heights : list F) :
  (forall a b : F, flt a b = true -> number b) ->
  (forall a b : F, feq a b = true -> number b) ->
  Exists (fun x => isnan x = true) heights ->
  forall fuel, cluster_loop fuel bl orders heights = Spin.
Proof.
  intros Hlt Heq Hex fuel.
  destruct heights as [|h hs]; [inversion Hex|].
  assert (Hnan : isnan (np_min h hs) = true).
  { apply np_min_nan; [exact Hlt|].
    inversion Hex; subst; [left | right]; assumption. }
  induction fuel as [|fuel IH]; [reflexivity|].
  cbn [cluster_loop]. rewrite (cluster_pass_nan bl orders h hs Heq Hnan).
  cbn [rbind fst snd]. exact IH.
Qed.

Lemma nan_height_never_ends_witness :
  cluster_loop 1000 true ["A"; "B"; "C"; "D"]
    [Float64.whole 1; Float64.nan; Float64.whole 2] = Spin.
Proof.
  apply (nan_height_never_ends Float64.t _ true ["A"; "B"; "C"; "D"]
           [Float64.whole 1; Float64.nan; Float64.whole 2]).
  - intros [|a] [|b]; simpl; try discriminate. intros _. apply N.eqb_refl.
  - intros [|a] [|b]; simpl; try discriminate. intros _. apply N.eqb_refl.
  - right. left. reflexivity.
Defined.

(** ** What the clusterer does to the text of the order *)

Lemma string_app_cons (c : ascii) (a b : string) :
  String c a +:+ b = String c (a +:+ b).
Proof. reflexivity. Qed.

Lemma string_app_nil_r (s : string) : s +:+ "" = s.
Proof.
  induction s as [|c s IH]; [reflexivity|].
  rewrite string_app_cons, IH. reflexivity.
Qed.

Lemma string_app_assoc (a b c : string) : (a +:+ b) +:+ c = a +:+ b +:+ c.
Proof.
  induction a as [|x a IH]; [reflexivity|].
  rewrite !string_app_cons, IH. reflexivity.
Qed.

Lemma join_cons (sep x y : string) (l : list string) :
  Py.join sep (x :: y :: l) = x +:+ sep +:+ Py.join sep (y :: l).
Proof. reflexivity. Qed.

Lemma join_app (sep : string) (l1 l2 : list string) :
  l1 <> [] -> l2 <> [] ->
  Py.join sep (l1 ++ l2) = Py.join sep l1 +:+ sep +:+ Py.join sep l2.
Proof.
  intros H1 H2. induction l1 as [|x l1 IH]; [congruence|].
  destruct l1 as [|y l1].
  - destruct l2 as [|z l2]; [congruence|]. reflexivity.
  - change ((x :: y :: l1) ++ l2) with (x :: y :: (l1 ++ l2)).
    rewrite !join_cons. change (y :: l1 ++ l2) with ((y :: l1) ++ l2).
    rewrite IH by discriminate. rewrite !string_app_assoc. reflexivity.
Qed.

Lemma split_not_empty (c : ascii) (s : string) : Py.split c s <> [].
Proof.
  destruct s as [|a s]; simpl; [discriminate|].
  destruct (Ascii.eqb a c); [discriminate|]. destruct (Py.split c s); discriminate.
Qed.

(** Joining what [split] cut gives the string back. *)
Lemma join_split (c : ascii) (s : string) :
  Py.join (String c EmptyString) (Py.split c s) = s.
Proof.
  induction s as [|a s IH]; [reflexivity|]. simpl.
  destruct (Ascii.eqb a c) eqn:E.
  - apply Ascii.eqb_eq in E. subst a.
    pose proof (split_not_empty c s) as Hne.
    destruct (Py.split c s) as [|w ws]; [congruence|].
    rewrite join_cons, IH. reflexivity.
  - pose proof (split_not_empty c s) as Hne.
    destruct (Py.split c s) as [|w ws]; [congruence|].
    destruct ws as [|w' ws].
    + change (Py.join (String c "") [w]) with w in IH. rewrite <- IH. reflexivity.
    + rewrite join_cons, string_app_cons, <- join_cons, IH. reflexivity.
Qed.

Lemma unbracket_app (a b : string) : unbracket (a +:+ b) = unbracket a +:+ unbracket b.
Proof.
  induction a as [|c a IH]; simpl; [reflexivity|].
  destruct (Ascii.eqb c "(" || Ascii.eqb c ")"); simpl; rewrite IH; reflexivity.
Qed.

Lemma map_app_nil (l : list string) : map (fun o => o +:+ "") l = l.
Proof.
  induction l as [|x l IH]; simpl; [reflexivity|].
  rewrite string_app_nil_r, IH. reflexivity.
Qed.

Lemma unbracket_close (group : list string) :
  unbracket (close_group "" group) = unbracket (Py.join "," group).
Proof.
  assert (E : unbracket (cluster_token "" group) = unbracket (Py.join "," group)).
  { unfold cluster_token. rewrite map_app_nil, !unbracket_app. simpl.
    rewrite string_app_nil_r. reflexivity. }
  destruct group as [|a [|b group]]; [exact E | reflexivity | exact E].
Qed.

Lemma merge_runs_not_empty nwk (runs : list bool) :
  forall group orders,
    length orders = S (length runs) -> merge_runs nwk group orders runs <> [].
Proof.
  induction runs as [|b runs IH]; intros group orders Hlen.
  - destruct orders; simpl in *; [lia | discriminate].
  - destruct orders as [|o orders]; simpl in Hlen; [lia|].
    destruct b; simpl; [apply IH; lia | discriminate].
Qed.

(** A pass without branch lengths only adds brackets. *)
Lemma unbracket_merge_runs (runs : list bool) :
  forall group orders,
    length orders = S (length runs) ->
    unbracket (Py.join "," (merge_runs "" group orders runs))
    = unbracket (Py.join "," (group ++ orders)).
Proof.
  induction runs as [|b runs IH]; intros group orders Hlen.
  - destruct orders as [|o [|? ?]]; simpl in Hlen; try lia.
    cbn [merge_runs]. change (Py.join "," [close_group "" (group ++ [o])])
      with (close_group "" (group ++ [o])).
    apply unbracket_close.
  - destruct orders as [|o orders]; simpl in Hlen; [lia|].
    destruct b; cbn [merge_runs].
    + rewrite IH by lia. rewrite <- app_assoc. reflexivity.
    + pose proof (merge_runs_not_empty "" runs [] orders ltac:(lia)) as Hne.
      assert (Hno : orders <> []) by (destruct orders; simpl in *; [lia | discriminate]).
      change (close_group "" (group ++ [o]) :: merge_runs "" [] orders runs)
        with ([close_group "" (group ++ [o])] ++ merge_runs "" [] orders runs).
      rewrite join_app by (assumption || discriminate).
      change (group ++ o :: orders) with (group ++ [o] ++ orders).
      rewrite app_assoc.
      rewrite (join_app "," (group ++ [o]) orders)
        by (assumption || (destruct group; discriminate)).
      rewrite !unbracket_app. rewrite IH by lia. simpl app.
      change (Py.join "," [close_group "" (group ++ [o])])
        with (close_group "" (group ++ [o])).
      rewrite unbracket_close. reflexivity.
Qed.

Lemma balance_app (a b : string) :
  forall level,
    balance level (a +:+ b)
    = match balance level a with
      | Some level' => balance level' b
      | None => None
      end.
Proof.
  induction a as [|c a IH]; intros level; simpl; [reflexivity|].
  destruct (Ascii.eqb c "("); [apply IH|].
  destruct (Ascii.eqb c ")"); [|apply IH].
  destruct level; [reflexivity | apply IH].
Qed.

Lemma balance_shift (s : string) :
  forall level level' k,
    balance level s = Some level' -> balance (level + k) s = Some (level' + k).
Proof.
  induction s as [|c s IH]; intros level level' k; simpl.
  - intros [= <-]. reflexivity.
  - destruct (Ascii.eqb c "("); [apply (IH (S level))|].
    destruct (Ascii.eqb c ")"); [|apply IH].
    destruct level as [|level]; [discriminate|]. simpl. apply IH.
Qed.

Lemma well_bracketed_from_zero (s : string) : balance 0 s = Some 0 -> well_bracketed s.
Proof. intros E level. apply (balance_shift s 0 0 level E). Qed.

Lemma well_bracketed_app (a b : string) :
  well_bracketed a -> well_bracketed b -> well_bracketed (a +:+ b).
Proof. intros Ha Hb level. rewrite balance_app, Ha. apply Hb. Qed.

Lemma well_bracketed_plain (s : string) : plain s = true -> well_bracketed s.
Proof.
  induction s as [|c s IH]; intros Hp level; simpl in *; [reflexivity|].
  apply andb_prop in Hp as [Hp Hs]. apply andb_prop in Hp as [H1 H2].
  apply negb_true_iff in H1, H2. rewrite H1, H2. apply IH, Hs.
Qed.

Lemma well_bracketed_join (sep : string) (l : list string) :
  well_bracketed sep -> Forall well_bracketed l -> well_bracketed (Py.join sep l).
Proof.
  intros Hsep. induction 1 as [|x l Hx Hl IH]; [intros level; reflexivity|].
  destruct l as [|y l]; [exact Hx|].
  rewrite join_cons. repeat apply well_bracketed_app; assumption.
Qed.

Lemma well_bracketed_cluster_token nwk (toks : list string) :
  plain nwk = true -> Forall well_bracketed toks ->
  well_bracketed (cluster_token nwk toks).
Proof.
  intros Hn Htoks level. unfold cluster_token.
  change ("(" +:+ Py.join "," (map (fun o => o +:+ nwk) toks) +:+ ")")
    with (String "("%char (Py.join "," (map (fun o => o +:+ nwk) toks) +:+ ")")).
  cbn [balance]. change (Ascii.eqb "(" "(") with true. cbv iota.
  rewrite balance_app.
  rewrite (well_bracketed_join "," (map (fun o => o +:+ nwk) toks)).
  - reflexivity.
  - apply well_bracketed_plain. reflexivity.
  - apply Forall_map. eapply Forall_impl; [exact Htoks|].
    intros o Ho. simpl. apply well_bracketed_app; [exact Ho|].
    apply well_bracketed_plain, Hn.
Qed.

Lemma well_bracketed_merge_runs nwk (runs : list bool) :
  plain nwk = true ->
  forall group orders,
    Forall well_bracketed group -> Forall well_bracketed orders ->
    Forall well_bracketed (merge_runs nwk group orders runs).
Proof.
  intros Hn.
  assert (Hclose : forall g, Forall well_bracketed g -> well_bracketed (close_group nwk g)).
  { intros g Hg. destruct g as [|a [|b g]];
      [apply well_bracketed_cluster_token; assumption
      | inversion Hg; assumption
      | apply well_bracketed_cluster_token; assumption]. }
  induction runs as [|b runs IH]; intros group orders Hg Ho.
  - destruct orders as [|o orders]; [constructor|]. simpl.
    inversion Ho; subst. constructor; [|assumption].
    apply Hclose, Forall_app. split; [assumption | constructor; [assumption | constructor]].
  - destruct orders as [|o orders]; [constructor|].
    inversion Ho; subst.
    assert (Hgo : Forall well_bracketed (group ++ [o]))
      by (apply Forall_app; split; [assumption | constructor; [assumption | constructor]]).
    destruct b; simpl.
    + apply IH; assumption.
    + constructor; [apply Hclose, Hgo | apply IH; [constructor | assumption]].
Qed.

Section LoopInvariants.

Context {F : Type} `{NumPy F}.

(** A property of the loop state that every pass from an aligned state
    keeps holds of the single token the loop ends with. *)
Lemma cluster_loop_invariant (bl : bool) (Inv : list string -> list F -> Prop) :
  (forall orders h hs orders' heights',
      aligned orders (h :: hs) -> Inv orders (h :: hs) ->
      cluster_pass bl orders h hs = Ok (orders', heights') -> Inv orders' heights') ->
  forall fuel orders heights,
    aligned orders heights -> Forall number heights -> length heights <= fuel ->
    Inv orders heights ->
    exists tok, cluster_loop fuel bl orders heights = Ok [tok] /\ Inv [tok] [].
Proof.
  intros Hstep.
  induction fuel as [|fuel IH]; intros orders heights Hal Hnum Hfuel Hinv.
  - destruct heights; simpl in Hfuel; [|lia].
    unfold aligned in Hal. destruct orders as [|o [|? ?]]; simpl in Hal; try lia.
    exists o. split; [reflexivity | exact Hinv].
  - destruct heights as [|h hs].
    + unfold aligned in Hal. destruct orders as [|o [|? ?]]; simpl in Hal; try lia.
      exists o. split; [reflexivity | exact Hinv].
    + destruct (cluster_pass_lengths bl orders h hs Hal)
        as (orders' & heights' & E & _ & Hal' & Hprog).
      destruct (Hprog Hnum) as [Hlt Hnum'].
      cbn [cluster_loop]. rewrite E. cbn [rbind fst snd].
      apply IH; [assumption | assumption | simpl in *; lia|].
      apply (Hstep orders h hs orders' heights' Hal Hinv E).
Qed.

End LoopInvariants.

(** X4.  The order of the tips is kept.  On aligned input whose heights
    are numbers, with branch lengths off, the returned tree is the order
    string with brackets added and [";"] appended and nothing else changed:
    without its brackets the tree reads as the order string without its
    brackets, followed by [";"]. *)
Theorem tree_keeps_the_order
    (F : Type) (NP : NumPy F) (fuel : nat)
    (order_string height_string : string) (heights : list F) :
  fromstring height_string "," = Ok heights ->
  aligned (Py.split "," order_string) heights ->
  Forall number heights ->
  length heights <= fuel ->
  exists tree,
    planar_order_to_newick fuel order_string height_string false = Ok tree
    /\ unbracket tree = unbracket order_string +:+ ";".
Proof.
  intros Eparse Hal Hnum Hfuel.
  destruct (cluster_loop_invariant false
              (fun orders _ => unbracket (Py.join "," orders) = unbracket order_string))
    with (fuel := fuel) (orders := Py.split "," order_string) (heights := heights)
    as (tok & E & Htok); try assumption.
  - intros orders h hs orders' heights' Hal' Hinv Epass.
    assert (Hl : length orders
                 = S (length (runs_of_min_height (np_min h hs) (h :: hs))))
      by (unfold runs_of_min_height; rewrite length_map; exact Hal').
    rewrite (cluster_pass_merge_runs false orders h hs Hal') in Epass.
    injection Epass as <- _.
    change (nwk_of false (np_min h hs)) with "".
    change (feq h (np_min h hs) :: runs_of_min_height (np_min h hs) hs)
      with (runs_of_min_height (np_min h hs) (h :: hs)).
    rewrite (unbracket_merge_runs _ [] orders Hl). exact Hinv.
  - rewrite (join_split "," order_string). reflexivity.
  - exists (tok +:+ ";"). split.
    + unfold planar_order_to_newick. rewrite Eparse. cbn [rbind]. rewrite E. reflexivity.
    + rewrite unbracket_app. change (Py.join "," [tok]) with tok in Htok.
      rewrite Htok. reflexivity.
Qed.

Lemma tree_keeps_the_order_witness :
  exists tree,
    planar_order_to_newick 5 "A,B,C,D,E,F" "3,1,1,2,1" false = Ok tree
    /\ unbracket tree = "A,B,C,D,E,F;".
Proof.
  apply (tree_keeps_the_order Float64.t _ 5 "A,B,C,D,E,F" "3,1,1,2,1"
           [Float64.whole 3; Float64.whole 1; Float64.whole 1; Float64.whole 2;
            Float64.whole 1]).
  - reflexivity.
  - reflexivity.
  - repeat constructor.
  - simpl. lia.
Defined.

(** X5.  The brackets of the tree match.  On aligned input whose heights
    are numbers, when every token has matching brackets (bare labels have
    none) and the printed branch lengths have no bracket, every bracket of
    the returned tree is matched, with or without branch lengths. *)
Theorem tree_is_well_bracketed
    (F : Type) (NP : NumPy F) (bl : bool) (fuel : nat)
    (order_string height_string : string) (heights : list F) :
  fromstring height_string "," = Ok heights ->
  aligned (Py.split "," order_string) heights ->
  Forall number heights ->
  length heights <= fuel ->
  Forall (fun o => balance 0 o = Some 0) (Py.split "," order_string) ->
  Forall (fun h => plain (nwk_of bl h) = true) heights ->
  exists tree,
    planar_order_to_newick fuel order_string height_string bl = Ok tree
    /\ balance 0 tree = Some 0.
Proof.
  intros Eparse Hal Hnum Hfuel Htoks Hnwk.
  destruct (cluster_loop_invariant bl
              (fun orders hs => Forall well_bracketed orders
                                /\ Forall (fun h => plain (nwk_of bl h) = true) hs))
    with (fuel := fuel) (orders := Py.split "," order_string) (heights := heights)
    as (tok & E & Htok & _); try assumption.
  - intros orders h hs orders' heights' Hal' [Ho Hh] Epass.
    rewrite (cluster_pass_merge_runs bl orders h hs Hal') in Epass.
    injection Epass as <- <-. split.
    + apply well_bracketed_merge_runs; [|constructor | exact Ho].
      rewrite Forall_forall in Hh. apply Hh, list_elem_of_In, np_min_In.
    + change (Forall (fun x => plain (nwk_of bl x) = true)
                (List.filter (fun x => negb (feq x (np_min h hs))) (h :: hs))).
      apply Forall_filter_keep, Hh.
  - split; [|exact Hnwk].
    eapply Forall_impl; [exact Htoks|]. intros o. apply well_bracketed_from_zero.
  - exists (tok +:+ ";"). split.
    + unfold planar_order_to_newick. rewrite Eparse. cbn [rbind]. rewrite E. reflexivity.
    + inversion Htok as [|? ? Hw _]; subst.
      rewrite balance_app, Hw. reflexivity.
Qed.

Lemma tree_is_well_bracketed_witness :
  exists tree,
    planar_order_to_newick 5 "A,(B),C,D,E,F" "3,1,1,2,1" true = Ok tree
    /\ balance 0 tree = Some 0.
Proof.
  apply (tree_is_well_bracketed Float64.t _ true 5 "A,(B),C,D,E,F" "3,1,1,2,1"
           [Float64.whole 3; Float64.whole 1; Float64.whole 1; Float64.whole 2;
            Float64.whole 1]).
  - reflexivity.
  - reflexivity.
  - repeat constructor.
  - simpl. lia.
  - repeat constructor.
  - repeat constructor.
Defined.

(** ** The [TREE] statement *)

Lemma endswith_char_snoc (c : ascii) (s : string) :
  Py.endswith_char c (s +:+ String c "") = true.
Proof.
  induction s as [|a s IH]; [apply Ascii.eqb_refl|].
  rewrite string_app_cons. cbn [Py.endswith_char].
  destruct (s +:+ String c "") eqn:E; [|exact IH].
  destruct s; discriminate E.
Qed.

Lemma endswith_char_split (c : ascii) (s : string) :
  Py.endswith_char c s = true -> exists s', s = s' +:+ String c "".
Proof.
  induction s as [|a s IH]; [discriminate|]. cbn [Py.endswith_char].
  destruct s as [|b s].
  - intros E. apply Ascii.eqb_eq in E. subst a. exists "". reflexivity.
  - intros E. destruct (IH E) as [s' Es']. exists (String a s').
    rewrite string_app_cons, <- Es'. reflexivity.
Qed.

Lemma tree_words_app (position tree more : string) :
  Py.join " " ["TREE"; position; "="; tree +:+ more]
  = Py.join " " ["TREE"; position; "="; tree] +:+ more.
Proof.
  change (Py.join " " ["TREE"; position; "="; tree +:+ more])
    with ("TREE" +:+ " " +:+ position +:+ " " +:+ "=" +:+ " " +:+ tree +:+ more).
  change (Py.join " " ["TREE"; position; "="; tree])
    with ("TREE" +:+ " " +:+ position +:+ " " +:+ "=" +:+ " " +:+ tree).
  rewrite !string_app_assoc. reflexivity.
Qed.

Lemma planar_tree_ends_with_semicolon {F : Type} `{NumPy F}
    (fuel : nat) (order_string height_string : string) (bl : bool) (tree : string) :
  planar_order_to_newick fuel order_string height_string bl = Ok tree ->
  Py.endswith_char ";" tree = true.
Proof.
  unfold planar_order_to_newick.
  destruct (fromstring height_string ",") as [heights|e|]; cbn [rbind]; try discriminate.
  destruct (cluster_loop fuel bl (Py.split "," order_string) heights) as [orders|e|];
    cbn [rbind]; try discriminate.
  destruct orders as [|o orders]; [discriminate|].
  intros [= <-]. apply endswith_char_snoc.
Qed.

(** X6.  The end of a [TREE] statement.  Every statement ends with a
    semicolon and a line feed; a tree that lacks its final semicolon gets
    one, so that the tree with and without it give the same statement; a
    tree that [planar_order_to_newick] returned has it already and gets no
    second one. *)
Theorem tree_statement_ends_once :
  (forall position tree,
      exists body, tree_line position tree = body +:+ ";" +:+ newline)
  /\ (forall position tree,
        Py.endswith_char ";" tree = false ->
        tree_line position (tree +:+ ";") = tree_line position tree)
  /\ (forall (F : Type) (NP : NumPy F) (fuel : nat)
             (order_string height_string : string) (bl : bool) (tree position : string),
        planar_order_to_newick fuel order_string height_string bl = Ok tree ->
        tree_line position tree
        = Py.join " " ["TREE"; position; "="; tree] +:+ newline).
Proof.
  split; [|split].
  - intros position tree. unfold tree_line, print.
    destruct (Py.endswith_char ";" tree) eqn:E.
    + destruct (endswith_char_split ";" tree E) as [tree' ->].
      exists (Py.join " " ["TREE"; position; "="; tree']).
      rewrite tree_words_app, string_app_assoc. reflexivity.
    + exists (Py.join " " ["TREE"; position; "="; tree]). reflexivity.
  - intros position tree E. unfold tree_line, print.
    rewrite E, endswith_char_snoc, tree_words_app, string_app_assoc. reflexivity.
  - intros F NP fuel order_string height_string bl tree position E.
    unfold tree_line, print.
    rewrite (planar_tree_ends_with_semicolon fuel order_string height_string bl tree E).
    reflexivity.
Qed.

Lemma tree_statement_ends_once_witness :
  tree_line "10.0" ("(1,2)" +:+ ";") = tree_line "10.0" "(1,2)"
  /\ tree_line "10.0" "((A,B),C);"
     = Py.join " " ["TREE"; "10.0"; "="; "((A,B),C);"] +:+ newline.
Proof.
  split.
  - apply (proj1 (proj2 tree_statement_ends_once) "10.0" "(1,2)"). reflexivity.
  - apply (proj2 (proj2 tree_statement_ends_once) Float64.t _ 2 "A,B,C" "1,2" false).
    reflexivity.
Defined.

(** ** What the converters read and write, on any input *)

Section AnyInput.

Context {F : Type} `{NumPy F}.
Context {P L : Type} `{Str P} `{Str L}.

(** A tree is written only once a record has been read, so never with
    the position of site 0. *)
Lemma newicks_loop_first_position (p p' : P) (ps : list P) (fh : list string) :
  forall b site out,
    (site = 0 -> b = "") ->
    newicks_loop (p :: ps) fh b site out = newicks_loop (p' :: ps) fh b site out.
Proof.
  induction fh as [|line fh IH]; intros b site out Hsite; [reflexivity|].
  cbn [newicks_loop nwk_line_start].
  destruct line as [|c s]; [reflexivity|].
  destruct (negb (Ascii.eqb c "[")); [apply IH, Hsite|].
  destruct (negb (Py.startswith nwk_line_start (String c s))); [reflexivity|].
  destruct (decide (b <> Py.drop_chars (String.length nwk_line_start) (String c s)));
    [|apply IH; discriminate].
  destruct (decide (b <> "")) as [Hb|]; [|apply IH; discriminate].
  destruct site as [|site]; [exfalso; apply Hb, Hsite; reflexivity|].
  unfold print_tree_at. cbn [lookup list_lookup].
  destruct (ps !! site); [apply IH; discriminate | reflexivity].
Qed.

Lemma planar_loop_first_position (fuel : nat) (p p' : P) (ps : list P)
    (fh : list string) :
  forall b h site out,
    (site = 0 -> fst b = "") ->
    planar_loop fuel (p :: ps) fh b h site out
    = planar_loop fuel (p' :: ps) fh b h site out.
Proof.
  induction fh as [fh IH] using (induction_ltof1 _ (@length string)).
  unfold ltof in IH. intros b h site out Hsite.
  destruct fh as [|order fh]; [reflexivity|].
  cbn [planar_loop].
  destruct order as [|c s]; [reflexivity|].
  destruct (negb (Py.isdigit c)); [apply IH; [simpl; lia | exact Hsite]|].
  destruct fh as [|next_line fh]; [reflexivity|].
  destruct (decide (b <> (Py.rstrip (String c s), Py.rstrip next_line)));
    [|apply IH; [simpl; lia | discriminate]].
  destruct (decide (fst b <> "")) as [Hb|]; [|apply IH; [simpl; lia | discriminate]].
  destruct (planar_order_to_newick fuel (fst b) (snd b) true) as [tree|e|];
    try reflexivity.
  destruct site as [|site]; [exfalso; apply Hb, Hsite; reflexivity|].
  unfold print_tree_at. cbn [lookup list_lookup].
  destruct (ps !! site); [apply IH; [simpl; lia | discriminate] | reflexivity].
Qed.

End AnyInput.

(** X7.  The position of the first site is never written.  Whatever the
    input, both converters give the same text and the same outcome when the
    first entry of the position index is replaced by any other value: a
    tree is tagged with the position where it ends, and no tree ends at
    site 0. *)
Theorem first_position_is_unused :
  (forall (F : Type) (NP : NumPy F) (P L : Type) (SP : Str P) (SL : Str L)
          (fuel : nat) (fh : list string) (p p' : P) (ps : list P) (seq_length : L),
      planar_to_nexus fuel fh (p :: ps) seq_length
      = planar_to_nexus fuel fh (p' :: ps) seq_length)
  /\ (forall (P L : Type) (SP : Str P) (SL : Str L)
             (fh : list string) (p p' : P) (ps : list P) (seq_length : L) (num_tips : Z),
        newicks_to_nexus fh (p :: ps) seq_length num_tips
        = newicks_to_nexus fh (p' :: ps) seq_length num_tips).
Proof.
  split.
  - intros. unfold planar_to_nexus.
    rewrite (planar_loop_first_position fuel p p' ps fh ("", "") "" 0 [nexus_header])
      by reflexivity.
    reflexivity.
  - intros. unfold newicks_to_nexus.
    rewrite (newicks_loop_first_position p p' ps fh "" 0
               [nexus_header; translate_block num_tips]) by reflexivity.
    reflexivity.
Qed.

Lemma tree_line_not_end (position tree : string) : tree_line position tree <> nexus_end.
Proof.
  unfold tree_line, print.
  change (Py.join " " ["TREE"; position; "="; tree])
    with (String "T"%char ("REE" +:+ " " +:+ position +:+ " " +:+ "=" +:+ " " +:+ tree)).
  rewrite string_app_cons. discriminate.
Qed.

Lemma translate_block_not_end (num_tips : Z) : translate_block num_tips <> nexus_end.
Proof.
  unfold translate_block, print.
  change (Py.join " " ?l) with
    (String "T"%char ("RANSLATE" +:+ newline
       +:+ Py.join ("," +:+ newline)
             (map (fun i => str (i + 1)%Z +:+ " " +:+ str i) (Py.range num_tips))
       +:+ ";")).
  rewrite string_app_cons. discriminate.
Qed.

Section WhatIsWritten.

Context {F : Type} `{NumPy F}.
Context {P L : Type} `{Str P} `{Str L}.

(** The loops write [TREE] statements and nothing else. *)
Lemma newicks_loop_writes_trees (variant_positions : list P) (fh : list string) :
  forall b site out,
  exists more,
    fst (newicks_loop variant_positions fh b site out) = out ++ more
    /\ Forall is_tree_line more.
Proof.
  induction fh as [|line fh IH]; intros b site out.
  - exists []. split; [simpl; rewrite app_nil_r; reflexivity | constructor].
  - cbn [newicks_loop nwk_line_start].
    destruct line as [|c s];
      [exists []; split; [cbn [fst]; rewrite app_nil_r; reflexivity | constructor]|].
    destruct (negb (Ascii.eqb c "[")); [apply IH|].
    destruct (negb (Py.startswith nwk_line_start (String c s)));
      [exists []; split; [cbn [fst]; rewrite app_nil_r; reflexivity | constructor]|].
    destruct (decide (b <> Py.drop_chars (String.length nwk_line_start) (String c s)));
      [|apply IH].
    destruct (decide (b <> "")); [|apply IH].
    unfold print_tree_at.
    destruct (variant_positions !! site) as [p|];
      [|exists []; split; [cbn [fst]; rewrite app_nil_r; reflexivity | constructor]].
    destruct (IH (Py.drop_chars (String.length nwk_line_start) (String c s)) (S site)
                (out ++ [tree_line (str p) b])) as (more & E & Hmore).
    exists ([tree_line (str p) b] ++ more). split.
    + rewrite E, <- app_assoc. reflexivity.
    + constructor; [exists (str p), b; reflexivity | exact Hmore].
Qed.

Lemma planar_loop_writes_trees (fuel : nat) (variant_positions : list P)
    (fh : list string) :
  forall b h site out,
  exists more,
    fst (planar_loop fuel variant_positions fh b h site out) = out ++ more
    /\ Forall is_tree_line more.
Proof.
  induction fh as [fh IH] using (induction_ltof1 _ (@length string)).
  unfold ltof in IH. intros b h site out.
  assert (Hstop : forall r : result (string * string * string * nat),
             exists more, fst (out, r) = out ++ more /\ Forall is_tree_line more)
    by (intros r; exists []; split; [cbn [fst]; rewrite app_nil_r; reflexivity
                                    | constructor]).
  destruct fh as [|order fh]; [apply Hstop|].
  cbn [planar_loop].
  destruct order as [|c s]; [apply Hstop|].
  destruct (negb (Py.isdigit c)); [apply IH; simpl; lia|].
  destruct fh as [|next_line fh]; [apply Hstop|].
  destruct (decide (b <> (Py.rstrip (String c s), Py.rstrip next_line)));
    [|apply IH; simpl; lia].
  destruct (decide (fst b <> "")); [|apply IH; simpl; lia].
  destruct (planar_order_to_newick fuel (fst b) (snd b) true) as [tree|e|];
    try apply Hstop.
  unfold print_tree_at.
  destruct (variant_positions !! site) as [p|]; [|apply Hstop].
  destruct (IH fh ltac:(simpl; lia) (Py.rstrip (String c s), Py.rstrip next_line)
              (Py.rstrip next_line) (S site) (out ++ [tree_line (str p) tree]))
    as (more & E & Hmore).
  exists ([tree_line (str p) tree] ++ more). split.
  + rewrite E, <- app_assoc. reflexivity.
  + constructor; [exists (str p), tree; reflexivity | exact Hmore].
Qed.

End WhatIsWritten.

Lemma trees_not_end (more : list string) :
  Forall is_tree_line more -> ~ In nexus_end more.
Proof.
  intros Hmore Hin. rewrite Forall_forall in Hmore.
  destruct (Hmore nexus_end (proj2 (list_elem_of_In _ _) Hin)) as (p & t & E).
  symmetry in E. exact (tree_line_not_end p t E).
Qed.

(** X8.  [END;] marks success.  Whatever the input, the text a converter
    has written contains the closing [END;] exactly when the conversion
    ended without error, and then it is the last thing written and is
    written once: output cut short by an error never looks complete. *)
Theorem end_marks_success :
  (forall (F : Type) (NP : NumPy F) (P L : Type) (SP : Str P) (SL : Str L)
          (fuel : nat) (fh : list string) (variant_positions : list P) (seq_length : L),
      (snd (planar_to_nexus fuel fh variant_positions seq_length) = Ok tt
       <-> In nexus_end (fst (planar_to_nexus fuel fh variant_positions seq_length)))
      /\ (snd (planar_to_nexus fuel fh variant_positions seq_length) = Ok tt ->
          exists body,
            fst (planar_to_nexus fuel fh variant_positions seq_length)
            = body ++ [nexus_end]
            /\ ~ In nexus_end body))
  /\ (forall (P L : Type) (SP : Str P) (SL : Str L)
             (fh : list string) (variant_positions : list P) (seq_length : L)
             (num_tips : Z),
        (snd (newicks_to_nexus fh variant_positions seq_length num_tips) = Ok tt
         <-> In nexus_end (fst (newicks_to_nexus fh variant_positions seq_length num_tips)))
        /\ (snd (newicks_to_nexus fh variant_positions seq_length num_tips) = Ok tt ->
            exists body,
              fst (newicks_to_nexus fh variant_positions seq_length num_tips)
              = body ++ [nexus_end]
              /\ ~ In nexus_end body)).
Proof.
  assert (Hhead : nexus_header <> nexus_end) by discriminate.
  split.
  - intros F NP P L SP SL fuel fh variant_positions seq_length.
    unfold planar_to_nexus.
    destruct (planar_loop_writes_trees fuel variant_positions fh ("", "") "" 0
                [nexus_header]) as (more & E & Hmore).
    pose proof (trees_not_end more Hmore) as Hno.
    assert (Hbody : ~ In nexus_end ([nexus_header] ++ more))
      by (intros [Hc | Hc]; [exact (Hhead Hc) | exact (Hno Hc)]).
    destruct (planar_loop fuel variant_positions fh ("", "") "" 0 [nexus_header])
      as [out [[[b h] site]|e|]]; cbn [fst] in E; subst out.
    + destruct (decide (site <> length variant_positions)).
      { cbn [fst snd]. split; [split; [discriminate | intros Hc; destruct (Hbody Hc)]
                              | discriminate]. }
      destruct (decide (h <> "")).
      * destruct (planar_order_to_newick fuel (fst b) (snd b) true) as [tree|e|];
          cbn [fst snd].
        -- split.
           ++ split; [intros _|reflexivity].
              apply in_or_app. right. right. left. reflexivity.
           ++ intros _. exists (([nexus_header] ++ more) ++ [tree_line (str seq_length) tree]).
              split; [rewrite <- !app_assoc; reflexivity|].
              intros Hc. apply in_app_or in Hc as [Hc | [Hc | []]];
                [exact (Hbody Hc) | exact (tree_line_not_end _ _ Hc)].
        -- split; [split; [discriminate | intros Hc; destruct (Hbody Hc)] | discriminate].
        -- split; [split; [discriminate | intros Hc; destruct (Hbody Hc)] | discriminate].
      * cbn [fst snd]. split.
        -- split; [intros _|reflexivity]. apply in_or_app. right. left. reflexivity.
        -- intros _. exists ([nexus_header] ++ more). split; [reflexivity | exact Hbody].
    + cbn [fst snd]. split; [split; [discriminate | intros Hc; destruct (Hbody Hc)]
                            | discriminate].
    + cbn [fst snd]. split; [split; [discriminate | intros Hc; destruct (Hbody Hc)]
                            | discriminate].
  - intros P L SP SL fh variant_positions seq_length num_tips.
    unfold newicks_to_nexus.
    destruct (newicks_loop_writes_trees variant_positions fh "" 0
                [nexus_header; translate_block num_tips]) as (more & E & Hmore).
    pose proof (trees_not_end more Hmore) as Hno.
    assert (Hbody : ~ In nexus_end ([nexus_header; translate_block num_tips] ++ more)).
    { intros [Hc | [Hc | Hc]];
        [exact (Hhead Hc) | exact (translate_block_not_end _ Hc) | exact (Hno Hc)]. }
    destruct (newicks_loop variant_positions fh "" 0
                [nexus_header; translate_block num_tips])
      as [out [[b site]|e|]]; cbn [fst] in E; subst out.
    + destruct (decide (site <> length variant_positions)).
      { cbn [fst snd]. split; [split; [discriminate | intros Hc; destruct (Hbody Hc)]
                              | discriminate]. }
      destruct (decide (b <> "")); cbn [fst snd].
      * split.
        -- split; [intros _|reflexivity].
           apply in_or_app. right. right. left. reflexivity.
        -- intros _.
           exists (([nexus_header; translate_block num_tips] ++ more)
                     ++ [tree_line (str seq_length) b]).
           split; [rewrite <- !app_assoc; reflexivity|].
           intros Hc. apply in_app_or in Hc as [Hc | [Hc | []]];
             [exact (Hbody Hc) | exact (tree_line_not_end _ _ Hc)].
      * split.
        -- split; [intros _|reflexivity]. apply in_or_app. right. left. reflexivity.
        -- intros _. exists ([nexus_header; translate_block num_tips] ++ more).
           split; [reflexivity | exact Hbody].
    + cbn [fst snd]. split; [split; [discriminate | intros Hc; destruct (Hbody Hc)]
                            | discriminate].
    + cbn [fst snd]. split; [split; [discriminate | intros Hc; destruct (Hbody Hc)]
                            | discriminate].
Qed.

Lemma end_marks_success_witness :
  exists body,
    fst (newicks_to_nexus ["[0](1,2);"] [10%Z] 100%Z 2%Z) = body ++ [nexus_end]
    /\ ~ In nexus_end body.
Proof.
  apply (proj2 (proj2 end_marks_success Z Z _ _ ["[0](1,2);"] [10%Z] 100%Z 2%Z)).
  reflexivity.
Defined.

(** ** The forward form: what of the file matters *)

Section ForwardLines.

Context {F : Type} `{NumPy F}.
Context {P L : Type} `{Str P} `{Str L}.

(** The loop over well-formed items followed by any lines. *)
Lemma planar_loop_items_then (fuel : nat) (variant_positions : list P)
    (items : list planar_item) (rest : list string) :
  Forall planar_item_ok items ->
  forall b h site out,
    planar_loop fuel variant_positions (planar_lines items ++ rest) b h site out
    = match scan planar_blank (planar_render fuel) variant_positions
              (planar_records items) b site out with
      | (out', Ok (b', site')) =>
          planar_loop fuel variant_positions rest b'
            (List.last (map snd (planar_records items)) h) site' out'
      | (out', Raise e) => (out', Raise e)
      | (out', Spin) => (out', Spin)
      end.
Proof.
  induction 1 as [|it items Hit _ IH]; intros b h site out; [reflexivity|].
  destruct it as [line | o hl].
  - destruct Hit as [Hne Hd]. destruct line as [|c s]; [congruence|].
    simpl in Hd. cbn [planar_lines flat_map planar_item_lines app planar_loop].
    rewrite Hd. cbn [negb]. apply IH.
  - simpl in Hit. destruct o as [|c s]; [discriminate|]. simpl in Hit.
    cbn [planar_lines flat_map planar_item_lines app planar_loop].
    rewrite Hit. cbn [negb].
    change (planar_records (Site (String c s) hl :: items))
      with ((Py.rstrip (String c s), Py.rstrip hl) :: planar_records items).
    cbn [scan map snd]. rewrite last_shift.
    fold (planar_lines items).
    destruct (decide (b <> (Py.rstrip (String c s), Py.rstrip hl))) as [Hne | Heq].
    + unfold planar_blank at 1.
      destruct (decide (fst b <> "")) as [Hb | Hb].
      * rewrite bool_decide_eq_false_2 by assumption.
        unfold planar_render at 1.
        destruct (planar_order_to_newick fuel (fst b) (snd b) true) as [tree|e|];
          try reflexivity.
        destruct (print_tree_at variant_positions site tree out) as [out1 [[]|e|]];
          try reflexivity.
        apply IH.
      * apply dec_stable in Hb. rewrite bool_decide_eq_true_2 by assumption. apply IH.
    + apply IH.
Qed.

End ForwardLines.

(** X9.  Only the stripped records matter.  Two well-formed forward-form
    files with the same sequence of site records after [rstrip] convert to
    the same text with the same outcome: lines that are not data, and
    trailing white space (the line ends included) on order and height
    lines, have no effect. *)
Theorem only_stripped_records_matter
    (F : Type) (NP : NumPy F) (P L : Type) (SP : Str P) (SL : Str L)
    (fuel : nat) (items items' : list planar_item)
    (variant_positions : list P) (seq_length : L) :
  Forall planar_item_ok items ->
  Forall planar_item_ok items' ->
  planar_records items = planar_records items' ->
  planar_to_nexus fuel (planar_lines items) variant_positions seq_length
  = planar_to_nexus fuel (planar_lines items') variant_positions seq_length.
Proof.
  intros Hok Hok' Erecs. unfold planar_to_nexus.
  rewrite (planar_loop_scan fuel variant_positions items Hok).
  rewrite (planar_loop_scan fuel variant_positions items' Hok').
  rewrite Erecs. reflexivity.
Qed.

Lemma only_stripped_records_matter_witness :
  planar_to_nexus 2
    (planar_lines [Junk "# argentum"; Site ("0,1,2  " +:+ newline) ("1,2" +:+ newline);
                   Junk newline; Site "0,1,2" "2,1 "])
    [10%Z; 20%Z] 100%Z
  = planar_to_nexus 2
      (planar_lines [Site "0,1,2" "1,2"; Site ("0,1,2" +:+ newline) "2,1"])
      [10%Z; 20%Z] 100%Z.
Proof.
  apply (only_stripped_records_matter Float64.t _ Z Z _ _ 2).
  - repeat constructor; discriminate.
  - repeat constructor; discriminate.
  - reflexivity.
Defined.

(** X10.  An order line without its height line.  After well-formed
    items that were read without error, a data line that is the last line
    of the file makes [next] raise [StopIteration]: the conversion stops
    there, nothing more is written, the buffered tree and [END;] are not
    written. *)
Theorem order_line_without_height
    (F : Type) (NP : NumPy F) (P L : Type) (SP : Str P) (SL : Str L)
    (fuel : nat) (items : list planar_item) (order_line : string)
    (variant_positions : list P) (seq_length : L)
    (out1 : list string) (st : string * string * string * nat) :
  Forall planar_item_ok items ->
  first_is_digit order_line = true ->
  planar_loop fuel variant_positions (planar_lines items) ("", "") "" 0 [nexus_header]
  = (out1, Ok st) ->
  planar_to_nexus fuel (planar_lines items ++ [order_line]) variant_positions seq_length
  = (out1, Raise StopIteration).
Proof.
  intros Hok Hd E. unfold planar_to_nexus.
  rewrite (planar_loop_scan fuel variant_positions items Hok) in E.
  rewrite (planar_loop_items_then fuel variant_positions items [order_line] Hok).
  destruct (scan planar_blank (planar_render fuel) variant_positions
              (planar_records items) ("", "") 0 [nexus_header])
    as [out' [[b' site']|e|]]; try discriminate E.
  injection E as <- _.
  destruct order_line as [|c s]; [discriminate|]. simpl in Hd.
  cbn [planar_loop]. rewrite Hd. reflexivity.
Qed.

Lemma order_line_without_height_witness :
  planar_to_nexus 2
    (planar_lines [Site "0,1,2" "1,2"; Site "0,1,2" "2,1"] ++ ["0,1,2"])
    [10%Z; 20%Z; 30%Z] 100%Z
  = ([nexus_header; "TREE 20 = ((0:1.0,1:1.0):2.0,2:2.0);" +:+ newline],
     Raise StopIteration).
Proof.
  apply (order_line_without_height Float64.t _ Z Z _ _ 2
           [Site "0,1,2" "1,2"; Site "0,1,2" "2,1"] "0,1,2" [10%Z; 20%Z; 30%Z] 100%Z
           [nexus_header; "TREE 20 = ((0:1.0,1:1.0):2.0,2:2.0);" +:+ newline]
           ("0,1,2", "2,1", "2,1", 2)).
  - repeat constructor.
  - reflexivity.
  - reflexivity.
Defined.

(** ** Runs of one site, and one run of all sites *)

Section RunShapesOfInput.

Context {P L : Type} `{Str P} `{Str L}.
Context {R : Type} `{EqDecision R}.

Lemma group_runs_all_change (recs : list R) :
  all_change recs -> group_runs recs = map (fun r => (r, 1)) recs.
Proof.
  destruct recs as [|r recs]; [reflexivity|]. simpl. revert r.
  induction recs as [|r' recs IH]; intros r Hch; [reflexivity|].
  destruct Hch as [Hne Hch]. simpl.
  rewrite decide_True by exact Hne. f_equal. apply IH, Hch.
Qed.

Lemma runs_from_repeat (r : R) (m : nat) :
  forall k, runs_from r k (repeat r m) = [(r, k + m)].
Proof.
  induction m as [|m IH]; intros k; simpl.
  - do 2 f_equal. lia.
  - rewrite decide_False by (intros Hc; apply Hc; reflexivity).
    rewrite IH. do 2 f_equal. lia.
Qed.

(** The statements of runs of one site each: the k-th tree is tagged with
    the position of site k+1, the last one with the sequence length. *)
Lemma run_lines_singles (render : R -> result string)
    (variant_positions : list P) (seq_length : L) (recs : list R) :
  forall start,
    start + length recs = length variant_positions ->
    run_lines render variant_positions seq_length start (map (fun r => (r, 1)) recs)
    = zip_with tree_line
        (map str (drop (S start) variant_positions) ++ [str seq_length])
        (map (rendered render) recs).
Proof.
  induction recs as [|r recs IH]; intros start Hlen.
  - simpl. destruct (map str (drop (S start) variant_positions) ++ [str seq_length]);
      reflexivity.
  - cbn [map run_lines]. rewrite IH by (simpl in Hlen; lia).
    unfold exit_position. replace (start + 1) with (S start) by lia.
    destruct (variant_positions !! S start) as [p|] eqn:Ep.
    + rewrite (drop_S _ _ _ Ep). reflexivity.
    + apply lookup_ge_None in Ep.
      assert (recs = []) by (destruct recs; [reflexivity | simpl in Hlen; lia]).
      subst recs. rewrite !drop_ge by lia. reflexivity.
Qed.

End RunShapesOfInput.

Lemma rendered_trees (recs : list string) : map (rendered tree_render) recs = recs.
Proof. induction recs as [|r recs IH]; simpl; [reflexivity | rewrite IH; reflexivity]. Qed.

(** X11.  No two neighbouring records alike.  When every site record of
    a well-formed input differs from the one before it and there are as
    many records as positions, nothing is merged: one [TREE] statement is
    written per site, the tree of site k tagged with the position of site
    k+1 and the tree of the last site with the sequence length. *)
Theorem one_statement_per_changing_site
    (F : Type) (NP : NumPy F) (P L : Type) (SP : Str P) (SL : Str L)
    (fuel : nat) (pitems : list planar_item) (nitems : list newick_item)
    (variant_positions : list P) (seq_length : L) (num_tips : Z) :
  Forall planar_item_ok pitems ->
  Forall (renders (planar_render fuel)) (planar_records pitems) ->
  (forall r, last (planar_records pitems) = Some r -> snd r <> "") ->
  all_change (planar_records pitems) ->
  length (planar_records pitems) = length variant_positions ->
  Forall newick_item_ok nitems ->
  all_change (newick_records nitems) ->
  length (newick_records nitems) = length variant_positions ->
  planar_to_nexus fuel (planar_lines pitems) variant_positions seq_length
  = ([nexus_header]
       ++ zip_with tree_line
            (map str (drop 1 variant_positions) ++ [str seq_length])
            (map (rendered (planar_render fuel)) (planar_records pitems))
       ++ [nexus_end], Ok tt)
  /\ newicks_to_nexus (newick_lines nitems) variant_positions seq_length num_tips
     = ([nexus_header; translate_block num_tips]
          ++ zip_with tree_line
               (map str (drop 1 variant_positions) ++ [str seq_length])
               (newick_records nitems)
          ++ [nexus_end], Ok tt).
Proof.
  intros Hpok Hren Hlast Hpch Hplen Hnok Hnch Hnlen. split.
  - destruct (planar_to_nexus_by_runs fuel pitems variant_positions seq_length
                Hpok Hren Hlast) as (E & _).
    rewrite (E Hplen), (group_runs_all_change _ Hpch).
    rewrite run_lines_singles by (simpl; exact Hplen). reflexivity.
  - destruct (newicks_to_nexus_by_runs nitems variant_positions seq_length num_tips Hnok)
      as (E & _).
    rewrite (E Hnlen), (group_runs_all_change _ Hnch).
    rewrite run_lines_singles by (simpl; exact Hnlen).
    rewrite rendered_trees. reflexivity.
Qed.

Lemma one_statement_per_changing_site_witness :
  planar_to_nexus 2
    (planar_lines [Site "0,1,2" "1,2"; Site "0,1,2" "2,1"; Site "0,1,2" "1,2"])
    [10%Z; 20%Z; 30%Z] 100%Z
  = ([nexus_header;
      "TREE 20 = ((0:1.0,1:1.0):2.0,2:2.0);" +:+ newline;
      "TREE 30 = (0:2.0,(1:1.0,2:1.0):2.0);" +:+ newline;
      "TREE 100 = ((0:1.0,1:1.0):2.0,2:2.0);" +:+ newline;
      nexus_end], Ok tt)
  /\ newicks_to_nexus (newick_lines [Tree "(1,2);"; Tree "(2,1);"; Tree "(1,2);"])
       [10%Z; 20%Z; 30%Z] 100%Z 2%Z
     = ([nexus_header; translate_block 2;
         "TREE 20 = (1,2);" +:+ newline;
         "TREE 30 = (2,1);" +:+ newline;
         "TREE 100 = (1,2);" +:+ newline;
         nexus_end], Ok tt).
Proof.
  destruct (one_statement_per_changing_site Float64.t _ Z Z _ _ 2
              [Site "0,1,2" "1,2"; Site "0,1,2" "2,1"; Site "0,1,2" "1,2"]
              [Tree "(1,2);"; Tree "(2,1);"; Tree "(1,2);"]
              [10%Z; 20%Z; 30%Z] 100%Z 2%Z) as [Wp Wn].
  - repeat constructor.
  - repeat constructor; eexists; reflexivity.
  - intros r [= <-]. discriminate.
  - simpl. repeat split; discriminate.
  - reflexivity.
  - repeat constructor; discriminate.
  - simpl. repeat split; discriminate.
  - reflexivity.
  - split; [exact Wp | exact Wn].
Defined.

(** X12.  All records alike.  When all the site records of a well-formed
    input are the same record and there are as many of them as positions,
    a single [TREE] statement is written for all the sites, tagged with the
    sequence length; the values of the positions are not used at all. *)
Theorem one_statement_for_identical_sites
    (F : Type) (NP : NumPy F) (P L : Type) (SP : Str P) (SL : Str L)
    (fuel : nat) (pitems : list planar_item) (nitems : list newick_item)
    (order height tree newick : string) (m : nat)
    (variant_positions : list P) (seq_length : L) (num_tips : Z) :
  Forall planar_item_ok pitems ->
  planar_records pitems = repeat (order, height) (S m) ->
  height <> "" ->
  planar_order_to_newick fuel order height true = Ok tree ->
  Forall newick_item_ok nitems ->
  newick_records nitems = repeat newick (S m) ->
  length variant_positions = S m ->
  planar_to_nexus fuel (planar_lines pitems) variant_positions seq_length
  = ([nexus_header; tree_line (str seq_length) tree; nexus_end], Ok tt)
  /\ newicks_to_nexus (newick_lines nitems) variant_positions seq_length num_tips
     = ([nexus_header; translate_block num_tips; tree_line (str seq_length) newick;
         nexus_end], Ok tt).
Proof.
  intros Hpok Eprecs Hh Etree Hnok Enrecs Hlen.
  assert (Hexit : exit_position variant_positions seq_length (0 + (1 + m))
                  = str seq_length).
  { unfold exit_position. rewrite lookup_ge_None_2 by (simpl; lia). reflexivity. }
  split.
  - destruct (planar_to_nexus_by_runs fuel pitems variant_positions seq_length Hpok)
      as (E & _).
    + rewrite Eprecs. apply Forall_forall. intros r Hr.
      apply list_elem_of_In, repeat_spec in Hr. subst r. exists tree. exact Etree.
    + rewrite Eprecs. intros r Hr.
      assert (Hin : In r (repeat (order, height) (S m)))
        by (apply list_elem_of_In, last_Some_elem_of, Hr).
      apply repeat_spec in Hin. subst r. exact Hh.
    + rewrite E by (rewrite Eprecs, repeat_length; symmetry; exact Hlen).
      rewrite Eprecs. cbn [repeat group_runs]. rewrite runs_from_repeat.
      cbn [run_lines]. rewrite Hexit.
      unfold rendered, planar_render. cbn [fst snd]. rewrite Etree. reflexivity.
  - destruct (newicks_to_nexus_by_runs nitems variant_positions seq_length num_tips Hnok)
      as (E & _).
    rewrite E by (rewrite Enrecs, repeat_length; symmetry; exact Hlen).
    rewrite Enrecs. cbn [repeat group_runs]. rewrite runs_from_repeat.
    cbn [run_lines]. rewrite Hexit. reflexivity.
Qed.

Lemma one_statement_for_identical_sites_witness :
  planar_to_nexus 2
    (planar_lines [Site "0,1,2" "1,2"; Junk "#"; Site "0,1,2 " "1,2"; Site "0,1,2" "1,2"])
    [10%Z; 20%Z; 30%Z] 100%Z
  = ([nexus_header; tree_line "100" "((0:1.0,1:1.0):2.0,2:2.0);"; nexus_end], Ok tt)
  /\ newicks_to_nexus (newick_lines [Tree "(1,2);"; Tree "(1,2);"; Tree "(1,2);"])
       [10%Z; 20%Z; 30%Z] 100%Z 2%Z
     = ([nexus_header; translate_block 2; tree_line "100" "(1,2);"; nexus_end], Ok tt).
Proof.
  destruct (one_statement_for_identical_sites Float64.t _ Z Z _ _ 2
              [Site "0,1,2" "1,2"; Junk "#"; Site "0,1,2 " "1,2"; Site "0,1,2" "1,2"]
              [Tree "(1,2);"; Tree "(1,2);"; Tree "(1,2);"]
              "0,1,2" "1,2" "((0:1.0,1:1.0):2.0,2:2.0);" "(1,2);" 2
              [10%Z; 20%Z; 30%Z] 100%Z 2%Z) as [Wp Wn].
  - repeat constructor; discriminate.
  - reflexivity.
  - discriminate.
  - reflexivity.
  - repeat constructor; discriminate.
  - reflexivity.
  - reflexivity.
  - split; [exact Wp | exact Wn].
Defined.

(** ** The positions file and the input of argentum *)

Lemma file_lines_empty (content : string) : file_lines content = [] <-> content = "".
Proof.
  split; [|intros ->; reflexivity].
  destruct content as [|c rest]; [reflexivity|]. simpl.
  destruct (Ascii.eqb c (ascii_of_nat 10)); [discriminate|].
  destruct (file_lines rest); discriminate.
Qed.

(** X13.  What [variant_positions_from_fn] returns.  It returns [None]
    exactly when the file is empty; otherwise the first line alone decides
    (the lines after it are never read), and when that line parses the
    parsed array is returned and nothing is logged. *)
Theorem positions_come_from_the_first_line (F : Type) (NP : NumPy F) :
  (forall content,
      snd (variant_positions_from_fn (F:=F) (file_lines content)) = Ok None
      <-> content = "")
  /\ (forall line rest,
        variant_positions_from_fn (F:=F) (line :: rest)
        = variant_positions_from_fn (F:=F) [line])
  /\ (forall line rest positions,
        fromstring (Py.rstrip line) " " = Ok positions ->
        variant_positions_from_fn (line :: rest) = ([], Ok (Some positions))).
Proof.
  split; [|split].
  - intros content. split.
    + intros E. apply file_lines_empty.
      destruct (file_lines content) as [|line rest]; [reflexivity|].
      unfold variant_positions_from_fn in E.
      destruct (fromstring (Py.rstrip line) " "); discriminate E.
    + intros ->. reflexivity.
  - reflexivity.
  - intros line rest positions E. unfold variant_positions_from_fn. rewrite E. reflexivity.
Qed.

Lemma positions_come_from_the_first_line_witness :
  variant_positions_from_fn (file_lines ("10 20 30 " +:+ newline +:+ "not read"))
  = ([], Ok (Some [Float64.whole 10; Float64.whole 20; Float64.whole 30])).
Proof.
  apply (proj2 (proj2 (positions_come_from_the_first_line Float64.t _))
           ("10 20 30 " +:+ newline) ["not read"]).
  reflexivity.
Defined.

Lemma digit_cases (z : Z) (Q : Z -> Prop) :
  (0 <= z <= 9)%Z ->
  Q 0%Z -> Q 1%Z -> Q 2%Z -> Q 3%Z -> Q 4%Z -> Q 5%Z -> Q 6%Z -> Q 7%Z -> Q 8%Z ->
  Q 9%Z -> Q z.
Proof.
  intros Hz.
  assert (Hc : (z = 0 \/ z = 1 \/ z = 2 \/ z = 3 \/ z = 4 \/ z = 5 \/ z = 6 \/ z = 7
                \/ z = 8 \/ z = 9)%Z) by lia.
  intros; repeat (destruct Hc as [-> | Hc]; [assumption|]). subst. assumption.
Qed.

Lemma str_int_digit (z : Z) :
  (0 <= z <= 9)%Z -> Py.str_int z = String (digit_char z) "".
Proof.
  intros Hz.
  apply (digit_cases z (fun z => Py.str_int z = String (digit_char z) "") Hz);
    reflexivity.
Qed.

Lemma digit_char_facts (z : Z) :
  (0 <= z <= 9)%Z ->
  Ascii.eqb (digit_char z) (ascii_of_nat 10) = false
  /\ Py.isspace (digit_char z) = false
  /\ (Z.of_nat (nat_of_ascii (digit_char z)) - 48)%Z = z.
Proof.
  intros Hz.
  apply (digit_cases z
           (fun z => Ascii.eqb (digit_char z) (ascii_of_nat 10) = false
                     /\ Py.isspace (digit_char z) = false
                     /\ (Z.of_nat (nat_of_ascii (digit_char z)) - 48)%Z = z) Hz);
    (split; [reflexivity | split; reflexivity]).
Qed.

Lemma concat_empty_cons (x : string) (l : list string) :
  String.concat "" (x :: l) = x +:+ String.concat "" l.
Proof.
  destruct l as [|y l]; [symmetry; apply string_app_nil_r|]. reflexivity.
Qed.

Lemma savetxt_int_cons (z : Z) (genotype : list Z) :
  (0 <= z <= 9)%Z ->
  savetxt_int (z :: genotype) = String (digit_char z) (savetxt_int genotype).
Proof.
  intros Hz. unfold savetxt_int. cbn [map].
  rewrite concat_empty_cons, (str_int_digit z Hz). reflexivity.
Qed.

Lemma genotype_line (genotype : list Z) (rest : string) :
  Forall (fun z => 0 <= z <= 9)%Z genotype ->
  file_lines ((savetxt_int genotype +:+ newline) +:+ rest)
  = (savetxt_int genotype +:+ newline) :: file_lines rest
  /\ Py.rstrip (savetxt_int genotype +:+ newline) = savetxt_int genotype
  /\ digits_of_line (savetxt_int genotype) = genotype.
Proof.
  induction 1 as [|z genotype Hz _ IH].
  - repeat split; reflexivity.
  - destruct IH as (Hlines & Hstrip & Hdigits).
    destruct (digit_char_facts z Hz) as (Hnl & Hsp & Hval).
    rewrite (savetxt_int_cons z genotype Hz), !string_app_cons.
    split; [|split].
    + cbn [file_lines]. rewrite Hnl, Hlines. reflexivity.
    + cbn [Py.rstrip]. rewrite Hstrip, Hsp.
      destruct (savetxt_int genotype); reflexivity.
    + cbn [digits_of_line]. rewrite Hval, Hdigits. reflexivity.
Qed.

(** X14.  The input of argentum reads back as the genotypes.  When every
    genotype entry is a single digit (0 and 1 for biallelic sites),
    [samples_to_argentum_in] writes exactly one line per site, and the
    digits of each line, its line end stripped, are the genotypes of that
    site in order. *)
Theorem genotype_lines_read_back
    (P : Type) (ST : SaveTxt P) (genotypes : list (list Z)) (sites_position : list P) :
  Forall (Forall (fun z => 0 <= z <= 9)%Z) genotypes ->
  map (fun line => digits_of_line (Py.rstrip line))
    (file_lines (fst (samples_to_argentum_in genotypes sites_position)))
  = genotypes
  /\ length (file_lines (fst (samples_to_argentum_in genotypes sites_position)))
     = length genotypes.
Proof.
  intros Hall. unfold samples_to_argentum_in. cbn [fst].
  assert (E : map (fun line => digits_of_line (Py.rstrip line))
                (file_lines (String.concat ""
                   (map (fun genotype => savetxt_int genotype +:+ newline) genotypes)))
              = genotypes).
  { induction Hall as [|genotype genotypes Hg _ IH]; [reflexivity|].
    cbn [map]. rewrite concat_empty_cons.
    destruct (genotype_line genotype
                (String.concat ""
                   (map (fun genotype => savetxt_int genotype +:+ newline) genotypes)) Hg)
      as (-> & Hstrip & Hdigits).
    cbn [map]. rewrite Hstrip, Hdigits, IH. reflexivity. }
  split; [exact E|].
  rewrite <- E at 2. rewrite length_map. reflexivity.
Qed.

Lemma genotype_lines_read_back_witness :
  map (fun line => digits_of_line (Py.rstrip line))
    (file_lines (fst (samples_to_argentum_in [[0; 1; 1]; [1; 0; 0]]%Z
                        [Float64.whole 10; Float64.whole 25])))
  = [[0; 1; 1]; [1; 0; 0]]%Z
  /\ length (file_lines (fst (samples_to_argentum_in [[0; 1; 1]; [1; 0; 0]]%Z
                                [Float64.whole 10; Float64.whole 25])))
     = 2.
Proof.
  apply (genotype_lines_read_back Float64.t _ [[0; 1; 1]; [1; 0; 0]]%Z
           [Float64.whole 10; Float64.whole 25]).
  repeat constructor; lia.
Defined.

(** X15.  A blank line in the reverse form.  The reverse reader yields a
    blank line of the file as the empty string, and [line[0]] on it raises
    [IndexError]: after lines read without error, a blank line stops the
    conversion at once, nothing more is written and the lines after it are
    not read. *)
Theorem blank_line_in_reverse_form
    (P L : Type) (SP : Str P) (SL : Str L)
    (fh1 fh2 : list string) (variant_positions : list P) (seq_length : L)
    (num_tips : Z) (out1 : list string) (st : string * nat) :
  newicks_loop variant_positions fh1 "" 0 [nexus_header; translate_block num_tips]
  = (out1, Ok st) ->
  newicks_to_nexus (fh1 ++ "" :: fh2) variant_positions seq_length num_tips
  = (out1, Raise IndexError).
Proof.
  intros E. unfold newicks_to_nexus. rewrite newicks_loop_app, E.
  destruct st as [b site]. reflexivity.
Qed.

Lemma blank_line_in_reverse_form_witness :
  newicks_to_nexus (["[0](1,2);"; "[0](2,1);"] ++ "" :: ["[0](2,1);"])
    [10%Z; 20%Z; 30%Z] 100%Z 2%Z
  = ([nexus_header; translate_block 2; "TREE 20 = (1,2);" +:+ newline],
     Raise IndexError).
Proof.
  apply (blank_line_in_reverse_form Z Z _ _ ["[0](1,2);"; "[0](2,1);"] ["[0](2,1);"]
           [10%Z; 20%Z; 30%Z] 100%Z 2%Z
           [nexus_header; translate_block 2; "TREE 20 = (1,2);" +:+ newline]
           ("(2,1);", 2)).
  reflexivity.
Defined.
